(** * histocartography: graph building and explanation post-processing

    A shallow embedding of

    - [histocartography/graph_building/knn_graph_builder.py]
      (class [KNNGraphBuilder]), and
    - the per-instance body of [experiments/histo-graph/run_explainer.py]
      (function [main]),

    together with the properties the design document states about them.

    Python exceptions are values of an error monad; dictionaries with string
    keys are [gmap string _]; the DGL graph is the record of what the builder
    stores in it.  The builder is embedded twice: as functions on values,
    and as steps on a store that holds the objects shared between calls.
    Numeric utilities that live outside these two files
    ([compute_l2_distance], [compute_edge_weight]) are section variables. *)

From Stdlib Require Import ZArith QArith Lia Lqa Ascii.
From stdpp Require Import gmap strings list fin_maps.

Local Open Scope Z_scope.
Local Open Scope nat_scope.

(** ** Python results *)

Module Py.

(** The exceptions the embedded code can raise.  [KeyError k] is a failed
    dictionary subscript, [IndexError] a failed list or tensor subscript,
    [TypeError] an operation on a value of the wrong kind and [TensorError]
    the refusal of [torch.LongTensor] to build a tensor from a nested list.
    The last two are the failures the design document names for the
    explainer. *)
Inductive exn : Type :=
| KeyError (key : string)
| IndexError
| TypeError
| TensorError
| InvalidConfigError
| ModelInvocationError.

Inductive result (A : Type) : Type :=
| Ok (a : A)
| Raise (e : exn).
Arguments Ok {A} a.
Arguments Raise {A} e.

Definition bind {A B : Type} (m : result A) (f : A → result B) : result B :=
  match m with
  | Ok a => f a
  | Raise e => Raise e
  end.

#[export] Instance result_ret : MRet result := @Ok.
#[export] Instance result_bind : MBind result := λ A B f m, bind m f.

(** [d[k]] on a dictionary with string keys. *)
Definition subscript {V : Type} (d : gmap string V) (k : string) : result V :=
  match d !! k with
  | Some v => Ok v
  | None => Raise (KeyError k)
  end.

(** [l[i]] on a list, for a non-negative index. *)
Definition getitem {A : Type} (l : list A) (i : nat) : result A :=
  match l !! i with
  | Some x => Ok x
  | None => Raise IndexError
  end.

(** [itertools.combinations(l, 2)]: the pairs of elements at positions
    [i < j], in lexicographic order of the positions. *)
Fixpoint combinations2 {A : Type} (l : list A) : list (A * A) :=
  match l with
  | [] => []
  | x :: t => (pair x <$> t) ++ combinations2 t
  end.

(** [range(n)] *)
Definition range (n : nat) : list nat := seq 0 n.

End Py.

Import Py.

(** ** Tensors and the DGL graph *)

Module Torch.

Definition int64_min : Z := (- 2 ^ 63)%Z.
Definition int64_max : Z := (2 ^ 63 - 1)%Z.

Definition fits_int64 (z : Z) : bool :=
  ((int64_min <=? z) && (z <=? int64_max))%Z.

(** All rows of a nested list have the length of the first one. *)
Definition rectangular {A : Type} (rows : list (list A)) : bool :=
  match rows with
  | [] => true
  | r :: rs => forallb (λ r', length r' =? length r) rs
  end.

(** An integer tensor of rank one or two, as the list of its entries. *)
Inductive tensor : Type :=
| Vector (data : list Z)
| Matrix (rows : list (list Z)).

(** [torch.LongTensor(l)] on a flat list of Python integers: the entries
    are stored as 64-bit integers, an entry that does not fit is refused. *)
Definition LongTensor1 (l : list Z) : result tensor :=
  if forallb fits_int64 l then Ok (Vector l) else Raise TensorError.

(** [torch.LongTensor(l)] on a list of lists: ragged rows are refused
    too. *)
Definition LongTensor2 (rows : list (list Z)) : result tensor :=
  if rectangular rows && forallb (forallb fits_int64) rows
  then Ok (Matrix rows) else Raise TensorError.

End Torch.

Import Torch.

Module DGL.

(** What the builder keeps in a [dgl.DGLGraph]: the number of nodes, the
    node data dictionary and the directed edges in insertion order (DGL
    graphs are multigraphs, so this is a list). *)
Record DGLGraph : Type := mkGraph {
  number_of_nodes : nat;
  ndata : gmap string tensor;
  edges : list (nat * nat)
}.

(** [dgl.DGLGraph()] *)
Definition new : DGLGraph := mkGraph 0 ∅ [].

(** [graph.add_nodes(n)] *)
Definition add_nodes (n : nat) (g : DGLGraph) : DGLGraph :=
  mkGraph (number_of_nodes g + n) (ndata g) (edges g).

(** [graph.ndata[k] = t] *)
Definition set_ndata (k : string) (t : tensor) (g : DGLGraph) : DGLGraph :=
  mkGraph (number_of_nodes g) (<[k := t]> (ndata g)) (edges g).

(** [graph.add_edges(edge_list)]: every listed pair becomes a directed
    edge. *)
Definition add_edges (edge_list : list (nat * nat)) (g : DGLGraph) : DGLGraph :=
  mkGraph (number_of_nodes g) (ndata g) (edges g ++ edge_list).

Definition number_of_edges (g : DGLGraph) : nat := length (edges g).

End DGL.

Import DGL.

(** ** [knn_graph_builder.py] *)

Module KNN.

(** Modelled from the spec: [histocartography/graph_building/constants.py]
    is not part of the sources at hand; the node attributes are named
    ['centroid'] and ['label']. *)
Definition CENTROID : string := "centroid".
Definition LABEL : string := "label".

(** A detected object: the two entries of the dictionary that the builder
    reads. *)
Record object : Type := mkObject {
  obj_centroid : list Z;
  obj_label : Z
}.

Section Builder.

(** Python values stored in the configuration, with truthiness. *)
Variable value : Type.
Variable truthy : value → bool.

(** [histocartography.utils.vector]: the distance between two centroids
    and the weight derived from a distance. *)
Variables distance weight : Type.
Variable compute_l2_distance : list Z → list Z → distance.
Variable compute_edge_weight : distance → weight.

(** [edge_weight > threshold] *)
Variable gt : weight → value → bool.

Record KNNGraphBuilder : Type := mkBuilder {
  config : gmap string value;
  cuda : bool
}.

(** [KNNGraphBuilder.__init__]: the configuration and the flag are stored
    as they come.  The constructor of the base class is outside these
    sources and is taken to leave the configuration alone. *)
Definition __init__ (config : gmap string value) (cuda verbose : bool)
  : KNNGraphBuilder :=
  mkBuilder config cuda.

(** [KNNGraphBuilder._set_node_features] *)
Definition _set_node_features (self : KNNGraphBuilder)
    (objects : list object) (graph : DGLGraph) : result DGLGraph :=
  c ← LongTensor2 (obj_centroid <$> objects);
  let graph := set_ndata CENTROID c graph in
  l ← LongTensor1 (obj_label <$> objects);
  let graph := set_ndata LABEL l graph in
  Ok graph.

(** [KNNGraphBuilder._set_edge_embeddings]: the body is empty. *)
Definition _set_edge_embeddings (self : KNNGraphBuilder)
    (objects : list object) (graph : DGLGraph) : result DGLGraph :=
  Ok graph.

(** The [for pair in ...] loop of [_build_topology], with the edge list
    built so far as accumulator. *)
Fixpoint topology_loop (self : KNNGraphBuilder) (centroid : list (list Z))
    (pairs : list (nat * nat)) (edge_list : list (nat * nat))
  : result (list (nat * nat)) :=
  match pairs with
  | [] => Ok edge_list
  | pr :: pairs =>
      c0 ← getitem centroid pr.1;
      c1 ← getitem centroid pr.2;
      let dist := compute_l2_distance c0 c1 in
      let edge_weight := compute_edge_weight dist in
      threshold ← subscript (config self) "edge_threshold";
      if gt edge_weight threshold
      then topology_loop self centroid pairs
             (edge_list ++ [pr; (pr.2, pr.1)])
      else topology_loop self centroid pairs edge_list
  end.

(** [KNNGraphBuilder._build_topology] *)
Definition _build_topology (self : KNNGraphBuilder)
    (objects : list object) (graph : DGLGraph) : result DGLGraph :=
  let num_objects := length objects in
  let centroid := obj_centroid <$> objects in
  edge_list ← topology_loop self centroid
                (combinations2 (range num_objects)) [];
  Ok (add_edges edge_list graph).

(** [KNNGraphBuilder.__call__] *)
Definition __call__ (self : KNNGraphBuilder) (objects : list object)
    (image_size : list Z) : result DGLGraph :=
  let num_objects := length objects in
  let graph := DGL.new in
  let graph := add_nodes num_objects graph in
  graph ← _set_node_features self objects graph;
  graph ← _build_topology self objects graph;
  edge_encoding ← subscript (config self) "edge_encoding";
  if truthy edge_encoding
  then _set_edge_embeddings self objects graph
  else Ok graph.

(** *** Vocabulary of the statements *)

(** The two tensor conversions of [_set_node_features] accept the
    objects: the centroids have one length and all coordinates and
    labels are 64-bit integers. *)
Definition tensorable (objects : list object) : bool :=
  rectangular (obj_centroid <$> objects)
  && forallb (forallb fits_int64) (obj_centroid <$> objects)
  && forallb fits_int64 (obj_label <$> objects).

(** The weight of the pair of centroids at positions [p.1] and [p.2]
    exceeds the threshold. *)
Definition connected (threshold : value) (centroid : list (list Z))
    (p : nat * nat) : bool :=
  match centroid !! p.1, centroid !! p.2 with
  | Some c0, Some c1 =>
      gt (compute_edge_weight (compute_l2_distance c0 c1)) threshold
  | _, _ => false
  end.

(** The edge list that the loop of [_build_topology] leaves for a given
    threshold: each connected pair, followed by its reverse. *)
Definition paired_edges (threshold : value) (centroid : list (list Z))
    (pairs : list (nat * nat)) : list (nat * nat) :=
  filter (λ p, connected threshold centroid p = true) pairs
    ≫= λ p, [p; (p.2, p.1)].

(** The graph that [_set_node_features] leaves. *)
Definition with_features (objects : list object) (graph : DGLGraph)
  : DGLGraph :=
  set_ndata LABEL (Vector (obj_label <$> objects))
    (set_ndata CENTROID (Matrix (obj_centroid <$> objects)) graph).

(** The edges of a built graph, as a function of what the builder
    reads. *)
Definition topology_edges (self : KNNGraphBuilder)
    (objects : list object) : list (nat * nat) :=
  match config self !! "edge_threshold" with
  | Some threshold =>
      paired_edges threshold (obj_centroid <$> objects)
        (combinations2 (range (length objects)))
  | None => []
  end.

(** The graph that a successful call returns. *)
Definition built (self : KNNGraphBuilder) (objects : list object)
  : DGLGraph :=
  add_edges (topology_edges self objects)
    (with_features objects (add_nodes (length objects) DGL.new)).

End Builder.

Arguments mkBuilder {value} config cuda.
Arguments config {value} self : rename.
Arguments cuda {value} self : rename.
Arguments __init__ {value} config cuda verbose.
Arguments _set_node_features {value} self objects graph.
Arguments _set_edge_embeddings {value} self objects graph.
Arguments topology_loop {value distance weight} compute_l2_distance
  compute_edge_weight gt self centroid pairs edge_list.
Arguments _build_topology {value distance weight} compute_l2_distance
  compute_edge_weight gt self objects graph.
Arguments __call__ {value} truthy {distance weight} compute_l2_distance
  compute_edge_weight gt self objects image_size.
Arguments connected {value distance weight} compute_l2_distance
  compute_edge_weight gt threshold centroid p.
Arguments paired_edges {value distance weight} compute_l2_distance
  compute_edge_weight gt threshold centroid pairs.
Arguments topology_edges {value distance weight} compute_l2_distance
  compute_edge_weight gt self objects.
Arguments built {value distance weight} compute_l2_distance
  compute_edge_weight gt self objects.

(** The members of a list of pairs, each followed by its reverse. *)
Definition mirrored (l : list (nat * nat)) : list (nat * nat) :=
  l ≫= λ p, [p; (p.2, p.1)].

(** The attributes of node [i] of a built graph. *)
Definition node_centroid (g : DGLGraph) (i : nat) : option (list Z) :=
  match ndata g !! CENTROID with
  | Some (Matrix rows) => rows !! i
  | _ => None
  end.

Definition node_label (g : DGLGraph) (i : nat) : option Z :=
  match ndata g !! LABEL with
  | Some (Vector data) => data !! i
  | _ => None
  end.

End KNN.

(** ** [knn_graph_builder.py] on a store

    The same class once more, now with the objects that the program shares
    between calls kept in a store: the builder with its attributes, the list
    of objects that the caller holds, and the graphs allocated so far.
    Methods read and update the store, and a graph is referred to by its
    position in it. *)

Module Stateful.

Import KNN.

Section Builder.

Variable value : Type.
Variable truthy : value → bool.
Variables distance weight : Type.
Variable compute_l2_distance : list Z → list Z → distance.
Variable compute_edge_weight : distance → weight.
Variable gt : weight → value → bool.

Record store : Type := mkStore {
  (** [self.config] *)
  self_config : gmap string value;
  (** [self.cuda] *)
  self_cuda : bool;
  (** the list [objects] of the caller *)
  objects : list object;
  (** the [dgl.DGLGraph] objects that exist *)
  graphs : list DGLGraph
}.

(** A step of the program: a result or an exception, and the store that
    the step leaves. *)
Definition step (A : Type) : Type := store → result A * store.

Definition unit_step {A : Type} (a : A) : step A := λ σ, (Ok a, σ).

Definition then_step {A B : Type} (m : step A) (f : A → step B) : step B :=
  λ σ, match m σ with
       | (Ok a, σ') => f a σ'
       | (Raise e, σ') => (Raise e, σ')
       end.

Notation "x <- m ;; k" := (then_step m (λ x, k))
  (at level 100, m at next level, right associativity).

(** A computation on values, which may raise. *)
Definition pure_step {A : Type} (r : result A) : step A := λ σ, (r, σ).

(** [self.config[key]] *)
Definition get_config (key : string) : step value :=
  λ σ, (subscript (self_config σ) key, σ).

(** A read of the list [objects]. *)
Definition get_objects : step (list object) := λ σ, (Ok (objects σ), σ).

(** [dgl.DGLGraph()]: a new graph, after those that exist. *)
Definition new_graph : step nat :=
  λ σ, (Ok (length (graphs σ)),
        mkStore (self_config σ) (self_cuda σ) (objects σ)
          (graphs σ ++ [DGL.new])).

(** A method of [graph] that changes the graph in place. *)
Definition update_graph (graph : nat) (f : DGLGraph → DGLGraph)
  : step unit :=
  λ σ, (Ok tt,
        mkStore (self_config σ) (self_cuda σ) (objects σ)
          (alter f graph (graphs σ))).

(** [KNNGraphBuilder._set_node_features] *)
Definition _set_node_features (graph : nat) : step unit :=
  objects <- get_objects ;;
  c <- pure_step (LongTensor2 (obj_centroid <$> objects)) ;;
  _ <- update_graph graph (set_ndata CENTROID c) ;;
  objects <- get_objects ;;
  l <- pure_step (LongTensor1 (obj_label <$> objects)) ;;
  update_graph graph (set_ndata LABEL l).

(** [KNNGraphBuilder._set_edge_embeddings] *)
Definition _set_edge_embeddings (graph : nat) : step unit := unit_step tt.

(** The loop of [_build_topology]. *)
Fixpoint topology_loop (centroid : list (list Z))
    (pairs : list (nat * nat)) (edge_list : list (nat * nat))
  : step (list (nat * nat)) :=
  match pairs with
  | [] => unit_step edge_list
  | pr :: pairs =>
      c0 <- pure_step (getitem centroid pr.1) ;;
      c1 <- pure_step (getitem centroid pr.2) ;;
      let dist := compute_l2_distance c0 c1 in
      let edge_weight := compute_edge_weight dist in
      threshold <- get_config "edge_threshold" ;;
      if gt edge_weight threshold
      then topology_loop centroid pairs (edge_list ++ [pr; (pr.2, pr.1)])
      else topology_loop centroid pairs edge_list
  end.

(** [KNNGraphBuilder._build_topology] *)
Definition _build_topology (graph : nat) : step unit :=
  objects <- get_objects ;;
  let num_objects := length objects in
  let centroid := obj_centroid <$> objects in
  edge_list <- topology_loop centroid (combinations2 (range num_objects))
                 [] ;;
  update_graph graph (add_edges edge_list).

(** [KNNGraphBuilder.__call__] *)
Definition __call__ (image_size : list Z) : step nat :=
  objects <- get_objects ;;
  let num_objects := length objects in
  graph <- new_graph ;;
  _ <- update_graph graph (add_nodes num_objects) ;;
  _ <- _set_node_features graph ;;
  _ <- _build_topology graph ;;
  edge_encoding <- get_config "edge_encoding" ;;
  if truthy edge_encoding
  then (_ <- _set_edge_embeddings graph ;; unit_step graph)
  else unit_step graph.

(** The builder object of a store. *)
Definition self (σ : store) : KNNGraphBuilder value :=
  mkBuilder (self_config σ) (self_cuda σ).

End Builder.

Arguments mkStore {value} self_config self_cuda objects graphs.
Arguments self_config {value} σ : rename.
Arguments self_cuda {value} σ : rename.
Arguments objects {value} σ : rename.
Arguments graphs {value} σ : rename.
Arguments self {value} σ.
Arguments topology_loop {value distance weight} compute_l2_distance
  compute_edge_weight gt centroid pairs edge_list.
Arguments _set_node_features {value} graph.
Arguments _set_edge_embeddings {value} graph.
Arguments _build_topology {value distance weight} compute_l2_distance
  compute_edge_weight gt graph.
Arguments __call__ {value} truthy {distance weight} compute_l2_distance
  compute_edge_weight gt image_size.

End Stateful.

(** ** JSON-like values and insertion-ordered dictionaries *)

Module Json.

#[warnings="-register-all"]
Inductive json : Type :=
| JNull
| JBool (b : bool)
| JInt (z : Z)
| JFloat (q : Q)
| JString (s : string)
| JObject (fields : list (string * json)).

(** [d[k] = v] on an insertion-ordered dictionary: a present key keeps its
    place and gets the new value, an absent one is appended. *)
Fixpoint dict_set (k : string) (v : json) (d : list (string * json))
  : list (string * json) :=
  match d with
  | [] => [(k, v)]
  | (k', v') :: d' =>
      if String.eqb k k' then (k, v) :: d' else (k', v') :: dict_set k v d'
  end.

(** [d[k]] *)
Fixpoint dict_get (k : string) (d : list (string * json)) : result json :=
  match d with
  | [] => Raise (KeyError k)
  | (k', v') :: d' => if String.eqb k k' then Ok v' else dict_get k d'
  end.

Definition keys (d : list (string * json)) : list string := d.*1.

(** The members of an object; subscripting anything else is a
    [TypeError]. *)
Definition as_object (v : json) : result (list (string * json)) :=
  match v with
  | JObject d => Ok d
  | _ => Raise TypeError
  end.

(** A value used as a number in a comparison. *)
Definition as_number (v : json) : result Q :=
  match v with
  | JInt z => Ok (inject_Z z)
  | JFloat q => Ok q
  | JBool b => Ok (if b then 1%Q else 0%Q)
  | _ => Raise TypeError
  end.

End Json.

Import Json.

(** ** The explainer *)

Module SingleInstanceExplainer.

Section Explain.

(** The graph under explanation, a class-score vector and the learnable
    mask. *)
Variables graph prediction mask : Type.

(** The frozen predictive model; [None] when the forward pass raises. *)
Variable forward : graph → option prediction.
(** The initial mask of a graph. *)
Variable init_mask : graph → mask.
(** Squash the mask and multiply it into adjacency and features. *)
Variable apply_mask : mask → graph → graph.
(** One optimizer step on the mask: loss of the masked prediction against
    the original one, backward pass, update. *)
Variable update : mask → prediction → prediction → mask.

Record explanation : Type := mkExplanation {
  masked_graph : graph;
  original_prediction : prediction;
  explanation_prediction : prediction;
  (** ghost: how many times the loop body ran *)
  iterations : nat
}.

Definition invoke (g : graph) : result prediction :=
  match forward g with
  | Some p => Ok p
  | None => Raise ModelInvocationError
  end.

(** Modelled from the spec: step 3 of the algorithm of section 4.2, the
    loop over [epochs] iterations; [ran] counts the iterations done. *)
Fixpoint optimize (epochs : nat) (g : graph) (orig : prediction)
    (m : mask) (ran : nat) : result (mask * nat) :=
  match epochs with
  | O => Ok (m, ran)
  | S epochs =>
      masked_prediction ← invoke (apply_mask m g);
      optimize epochs g orig (update m masked_prediction orig) (S ran)
  end.

(** Modelled from the spec: [SingleInstanceExplainer.explain] of
    [histocartography/interpretability/single_instance_explainer.py],
    which is not part of the sources at hand, after section 4.2:
    a non-positive [num_epochs] is an [InvalidConfigError]; the model
    runs once on the unmasked graph, the mask is optimized for
    [num_epochs] iterations, and the model runs once more on the
    masked graph; a forward pass that raises is propagated. *)
Definition explain (num_epochs : Z) (g : graph) : result explanation :=
  if (num_epochs <=? 0)%Z then Raise InvalidConfigError
  else
    orig ← invoke g;
    '(m, ran) ← optimize (Z.to_nat num_epochs) g orig (init_mask g) 0;
    let masked := apply_mask m g in
    exp ← invoke masked;
    Ok (mkExplanation masked orig exp ran).

End Explain.

Arguments mkExplanation {graph prediction} _ _ _ _.
Arguments masked_graph {graph prediction} e : rename.
Arguments original_prediction {graph prediction} e : rename.
Arguments explanation_prediction {graph prediction} e : rename.
Arguments iterations {graph prediction} e : rename.
Arguments invoke {graph prediction} forward g.
Arguments optimize {graph prediction mask} forward apply_mask update
  epochs g orig m ran.
Arguments explain {graph prediction mask} forward init_mask apply_mask
  update num_epochs g.

End SingleInstanceExplainer.

(** ** [run_explainer.py]: the body of the loop over the instances *)

Module RunExplainer.

(** Dense real-valued tensors of rank two, as lists of rows; the reals are
    idealized as rationals. *)
Abbreviation matrix := (list (list Q)).

(** [row.sum()] *)
Definition row_sum (row : list Q) : Q := foldr Qplus 0%Q row.

(** [(feats.sum(dim=-1) != 0.).squeeze()] *)
Definition nonzero_sum_rows (feats : matrix) : list bool :=
  (λ row, negb (Qeq_bool (row_sum row) 0)) <$> feats.

(** [t[mask]] for a boolean mask along the first dimension: the entries
    at the positions where the mask is true, in order. *)
Fixpoint mask_select {A : Type} (mask : list bool) (l : list A) : list A :=
  match mask, l with
  | b :: mask, x :: l =>
      if b then x :: mask_select mask l else mask_select mask l
  | _, _ => []
  end.

(** [t[mask, :]] *)
Definition select_rows {A : Type} (mask : list bool) (t : list (list A))
  : list (list A) :=
  mask_select mask t.

(** [t[:, mask]] *)
Definition select_columns {A : Type} (mask : list bool) (t : list (list A))
  : list (list A) :=
  mask_select mask <$> t.

(** The explanation graph (a networkx graph): its nodes, the centroid of
    each of them, and its edges. *)
Record explanation_graph : Type := mkExplanationGraph {
  nodes : list nat;
  node_centroids : list (list Z);
  graph_edges : list (nat * nat)
}.

(** [x > threshold] *)
Definition exceeds (x threshold : Q) : bool := negb (Qle_bool x threshold).

(** The cells [(i, j)] of row [i] whose weight exceeds the threshold. *)
Definition row_edges (threshold : Q) (i : nat) (row : list Q)
  : list (nat * nat) :=
  (λ jw, (i, jw.1)) <$> filter (λ jw, exceeds jw.2 threshold = true)
                               (imap (λ j w, (j, w)) row).

(** The node is an end of one of the edges. *)
Definition incident (a : nat) (es : list (nat * nat)) : bool :=
  existsb (λ e, (e.1 =? a) || (e.2 =? a)) es.

(** Modelled from the spec: [histocartography.utils.graph.adj_to_networkx]
    is not part of the sources at hand.  After section 2 the postprocessor
    thresholds the edge mask, prunes the nodes of degree zero and
    materializes the graph: the edges are the cells whose mask weight
    exceeds the threshold, and of the nodes [0 .. n-1], one per row of the
    adjacency, those that are an end of such an edge remain, each with its
    centroid. *)
Definition adj_to_networkx (adj feats : matrix) (threshold : Q)
    (centroids : list (list Z)) : explanation_graph :=
  let es := mjoin (imap (row_edges threshold) adj) in
  let remaining :=
    filter (λ a, incident a es = true) (range (length adj)) in
  mkExplanationGraph remaining (omap (centroids !!.) remaining) es.

(** [main], lines 131-140: from the masked adjacency and features to the
    explanation graph.  The explainer hands back an adjacency of shape
    [N x N], features with [N] rows and there are [N] centroids, so that the
    mask fits each of them; with a single row [squeeze()] makes the mask a
    scalar, a case that this function does not describe. *)
Definition postprocess (adj feats : matrix) (threshold : Q)
    (centroids : list (list Z)) : explanation_graph :=
  let node_idx := nonzero_sum_rows feats in
  let adj := select_rows node_idx adj in
  let adj := select_columns node_idx adj in
  let feats := select_rows node_idx feats in
  let centroids := select_rows node_idx centroids in
  adj_to_networkx adj feats threshold centroids.

(** [main], lines 131-138: the adjacency, the features and the centroids
    restricted to the nodes that are kept, as they are handed to
    [adj_to_networkx]. *)
Definition select_nodes (adj feats : matrix) (centroids : list (list Z))
  : matrix * matrix * list (list Z) :=
  let node_idx := nonzero_sum_rows feats in
  let adj := select_rows node_idx adj in
  let adj := select_columns node_idx adj in
  let feats := select_rows node_idx feats in
  let centroids := select_rows node_idx centroids in
  (adj, feats, centroids).

(** The nodes of the input graph that survive, in increasing order: the
    node at position [a] of this list is node [a] of the explanation
    graph. *)
Definition kept_nodes (feats : matrix) : list nat :=
  mask_select (nonzero_sum_rows feats) (range (length feats)).

(** The command-line arguments that the loop reads. *)
Record arguments : Type := mkArguments {
  epochs : Z;
  learning_rate : Q;
  out_path : string
}.

(** [config['explainer']] after the assignments of lines 159-160. *)
Definition recorded (args : arguments)
    (explainer_config : list (string * json)) : list (string * json) :=
  dict_set "learning_rate" (JFloat (learning_rate args))
    (dict_set "number_of_epochs" (JInt (epochs args)) explainer_config).

(** The name of the metadata file of an instance called [name]. *)
Definition meta_data_file (name : string) : string :=
  (name +:+ "_explanation") +:+ ".json".

(** One element of the data loader: [data[0]] is the cell graph and
    [data[2]] the list of instance names. *)
Record instance : Type := mkInstance {
  data0 : DGLGraph;
  data2 : list string
}.

(** The metadata file of an instance: named after the first of its
    names, if there is one. *)
Definition instance_file (data : instance) : option string :=
  meta_data_file <$> data2 data !! 0.

Section Loop.

(** [str(list(np.around(p, 2)))] *)
Variable render : list Q → string.

(** [explainer.explain(data=data, label=label)] *)
Variable label : Type.
Variable explain :
  instance → label → result (matrix * matrix * list Q * list Q).

(** [main], lines 154-174: the metadata dictionary.  [explainer_config]
    is [config['explainer']] as the assignments of lines 159-160 leave
    it. *)
Definition make_meta_data (explainer_config : list (string * json))
    (orig_pred exp_pred : list Q) (cell_graph : DGLGraph)
    (explanation : explanation_graph) : list (string * json) :=
  let meta_data := [] in
  let meta_data := dict_set "config" (JObject explainer_config) meta_data in
  let original := [] in
  let original :=
    dict_set "prediction" (JString (render orig_pred)) original in
  let original :=
    dict_set "number_of_nodes"
      (JInt (Z.of_nat (number_of_nodes cell_graph))) original in
  let original :=
    dict_set "number_of_edges"
      (JInt (Z.of_nat (number_of_edges cell_graph))) original in
  let explanation_ := [] in
  let explanation_ :=
    dict_set "number_of_nodes"
      (JInt (Z.of_nat (length (nodes explanation)))) explanation_ in
  let explanation_ :=
    dict_set "number_of_edges"
      (JInt (Z.of_nat (length (graph_edges explanation)))) explanation_ in
  let explanation_ :=
    dict_set "explanation_prediction" (JString (render exp_pred))
      explanation_ in
  let output := [] in
  let output := dict_set "original" (JObject original) output in
  let output := dict_set "explanation" (JObject explanation_) output in
  dict_set "output" (JObject output) meta_data.

(** The body of [for data, label in dataloaders['train']].  The
    dictionary [config['explainer']] is shared with the metadata and
    updated through it, so the configuration is threaded through; the
    result is the configuration after the iteration, the explanation
    graph and the file name and contents handed to [write_json].  The two
    calls of the visualizer hand nothing back and are left out; [data] is
    rebound between them, which is where the file name gets its
    ["_explanation"]. *)
Definition explain_instance (config : gmap string json)
    (args : arguments) (data : instance) (lbl : label)
  : result (gmap string json * explanation_graph * (string * json)) :=
  let cell_graph := data0 data in
  '(adj, feats, orig_pred, exp_pred) ← explain data lbl;
  centroids ← subscript (ndata (data0 data)) "centroid";
  centroids ← match centroids with
              | Matrix rows => Ok rows
              | Vector _ => Raise IndexError
              end;
  explainer_config ← subscript config "explainer";
  explainer_config ← as_object explainer_config;
  adj_thresh ← dict_get "adj_thresh" explainer_config;
  adj_thresh ← as_number adj_thresh;
  let explanation := postprocess adj feats adj_thresh centroids in
  name ← getitem (data2 data) 0;
  let data_last := [name +:+ "_explanation"] in
  let explainer_config :=
    dict_set "number_of_epochs" (JInt (epochs args)) explainer_config in
  let explainer_config :=
    dict_set "learning_rate" (JFloat (learning_rate args))
      explainer_config in
  let config := <["explainer" := JObject explainer_config]> config in
  let meta_data :=
    make_meta_data explainer_config orig_pred exp_pred cell_graph
      explanation in
  name ← getitem data_last 0;
  Ok (config, explanation, (name +:+ ".json", JObject meta_data)).

(** The loop [for data, label in dataloaders['train']] over the elements
    that the loader yields.  [written] is the list of the files handed to
    [write_json] so far, each at the end of its iteration; an exception
    ends the loop and leaves what was written before. *)
Fixpoint explain_all (config : gmap string json) (args : arguments)
    (loader : list (instance * label)) (written : list (string * json))
  : list (string * json) * result (gmap string json) :=
  match loader with
  | [] => (written, Ok config)
  | (data, lbl) :: loader =>
      match explain_instance config args data lbl with
      | Ok (config, _, file) =>
          explain_all config args loader (written ++ [file])
      | Raise e => (written, Raise e)
      end
  end.

End Loop.

Arguments explain_instance render {label} explain config args data lbl.
Arguments explain_all render {label} explain config args loader written.

(** *** Loading the pretrained parameters: the expression that is built
    for each parameter name (lines 72-88) *)

(** [s.split(sep)] for a separator of one character: the pieces between
    the occurrences of the separator, empty ones included. *)
Fixpoint split (sep : ascii) (s : string) : list string :=
  match s with
  | EmptyString => [EmptyString]
  | String c s =>
      if Ascii.eqb c sep then EmptyString :: split sep s
      else match split sep s with
           | piece :: pieces => String c piece :: pieces
           | [] => [String c EmptyString]
           end
  end.

(** The character occurs in the string. *)
Fixpoint occurs (c : ascii) (s : string) : bool :=
  match s with
  | EmptyString => false
  | String c' s => Ascii.eqb c' c || occurs c s
  end.

Section ParameterPath.

(** Whether [int(s)] accepts the string. *)
Variable int_accepts : string → bool.

(** [is_int] *)
Definition is_int (s : string) : bool := int_accepts s.

(** The body of [for s in split]. *)
Definition to_eval_step (to_eval s : string) : string :=
  if is_int s then to_eval +:+ ("[" +:+ s +:+ "]")
  else (to_eval +:+ ".") +:+ s.

(** The string [to_eval] that lines 80-87 build for the parameter name
    [n]. *)
Definition to_eval (n : string) : string :=
  foldl to_eval_step "model" (split "."%char n).

(** How one component of a name is written in the expression. *)
Definition accessor (s : string) : string :=
  if is_int s then "[" +:+ s +:+ "]" else "." +:+ s.

End ParameterPath.

End RunExplainer.

(** ** A concrete instance *)

Module Demo.

Import KNN.

(** Configuration values: booleans and (idealized) floats. *)
Inductive pyvalue : Type :=
| PyBool (b : bool)
| PyFloat (q : Q).

Definition truthy (v : pyvalue) : bool :=
  match v with
  | PyBool b => b
  | PyFloat q => negb (Qeq_bool q 0)
  end.

(** The squared Euclidean distance of two integer points. *)
Definition sq_distance (a b : list Z) : Z :=
  foldr Z.add 0%Z (zip_with (λ x y, (x - y) ^ 2)%Z a b).

(** An inverse transform: positive, and smaller for larger distances. *)
Definition inverse_weight (d : Z) : Q := 1 # Z.to_pos (1 + d).

Definition gt (w : Q) (v : pyvalue) : bool :=
  match v with
  | PyBool b => negb (Qle_bool w (if b then 1 else 0))
  | PyFloat t => negb (Qle_bool w t)
  end.

Definition build (cfg : gmap string pyvalue) (objects : list object)
    (image_size : list Z) : result DGLGraph :=
  __call__ truthy sq_distance inverse_weight gt
    (__init__ cfg false false) objects image_size.

(** Five objects on a line at unit spacing. *)
Definition line5 : list object :=
  [ mkObject [0; 0]%Z 1%Z; mkObject [1; 0]%Z 2%Z; mkObject [2; 0]%Z 1%Z;
    mkObject [3; 0]%Z 3%Z; mkObject [4; 0]%Z 2%Z ].

(** Neighbours at distance one have weight 1/2, all others at most 1/5. *)
Definition cfg : gmap string pyvalue :=
  <["edge_threshold" := PyFloat (1 # 4)]>
    (<["edge_encoding" := PyBool false]> ∅).

Definition cfg_no_threshold : gmap string pyvalue :=
  <["edge_encoding" := PyBool false]> ∅.

Definition cfg_no_encoding : gmap string pyvalue :=
  <["edge_threshold" := PyFloat (1 # 4)]> ∅.

Definition builder : KNNGraphBuilder pyvalue := __init__ cfg false false.

(** The graph built from [line5]. *)
Definition graph5 : DGLGraph :=
  built sq_distance inverse_weight gt builder line5.

(** The same centroids under other labels, and the same threshold in a
    configuration with more keys. *)
Definition line5_relabelled : list object :=
  (λ o, mkObject (obj_centroid o) 7%Z) <$> line5.

Definition cfg_verbose : gmap string pyvalue :=
  <["edge_encoding" := PyBool true]> (<["verbose" := PyBool true]> cfg).

Definition graph5_relabelled : DGLGraph :=
  built sq_distance inverse_weight gt (__init__ cfg_verbose true true)
    line5_relabelled.

(** A store with the builder and the five objects and no graph yet, and
    the store that a call leaves. *)
Definition store5 : Stateful.store pyvalue :=
  Stateful.mkStore cfg false line5 [].

Definition store5' : Stateful.store pyvalue :=
  Stateful.mkStore cfg false line5 [graph5].

(** An object with a coordinate beyond 64 bits. *)
Definition far_object : object := mkObject [2 ^ 63; 0]%Z 1%Z.

(** A toy explainer instance: graphs, predictions and masks are numbers,
    the model is the identity and each step increments the mask. *)
Definition toy_explain (num_epochs : Z) (g : nat)
  : result (SingleInstanceExplainer.explanation nat nat) :=
  SingleInstanceExplainer.explain (mask := nat)
    (λ g, Some g) (λ _, 0) (λ _ g, g) (λ m _ _, S m) num_epochs g.

(** The mask of the design document's example: weight 0.9 on [(0, 1)],
    0.1 on [(1, 2)], and three nodes with features. *)
Definition mask3 : RunExplainer.matrix :=
  [ [0; 9 # 10; 0]; [0; 0; 1 # 10]; [0; 0; 0] ]%Q.
Definition feats3 : RunExplainer.matrix := [ [1; 2]; [3 # 2; 0]; [1; 1] ]%Q.
Definition centroids3 : list (list Z) := [ [0; 0]; [1; 0]; [2; 0] ]%Z.

(** Two nodes joined by a heavy edge; the features of the first one are
    not zero but cancel out. *)
Definition mask2 : RunExplainer.matrix := [ [0; 9 # 10]; [9 # 10; 0] ]%Q.
Definition feats2 : RunExplainer.matrix := [ [1; -1]; [1; 1] ]%Q.
Definition centroids2 : list (list Z) := [ [0; 0]; [1; 0] ]%Z.

Definition toy_render (p : list Q) : string :=
  "[" +:+ String.concat ", " ((λ _, "0.5") <$> p) +:+ "]".

Definition toy_config : gmap string json :=
  <["explainer" := JObject [("adj_thresh", JFloat (1 # 2))]]>
    (<["model_type" := JString "cell_graph_model"]> ∅).

Definition toy_args : RunExplainer.arguments :=
  RunExplainer.mkArguments 100 (1 # 100) "out".

Definition toy_instance : RunExplainer.instance :=
  RunExplainer.mkInstance
    (mkGraph 3 (<["centroid" := Matrix centroids3]> ∅)
       [(0, 1); (1, 0); (1, 2); (2, 1)])
    ["slide_7"].

Definition toy_run (config : gmap string json) :=
  RunExplainer.explain_instance toy_render
    (λ (_ : RunExplainer.instance) (_ : nat),
       Ok (mask3, feats3, [1 # 2; 1 # 2]%Q, [1 # 2; 1 # 2]%Q))
    config toy_args toy_instance 0.

(** What [toy_run toy_config] leaves and writes. *)
Definition toy_explainer_config : list (string * json) :=
  [ ("adj_thresh", JFloat (1 # 2)); ("number_of_epochs", JInt 100);
    ("learning_rate", JFloat (1 # 100)) ].

Definition toy_config' : gmap string json :=
  <["explainer" := JObject toy_explainer_config]> toy_config.

Definition toy_explanation : RunExplainer.explanation_graph :=
  RunExplainer.postprocess mask3 feats3 (1 # 2) centroids3.

Definition toy_meta_data : json :=
  JObject
    (RunExplainer.make_meta_data toy_render toy_explainer_config
       [1 # 2; 1 # 2]%Q [1 # 2; 1 # 2]%Q (RunExplainer.data0 toy_instance)
       toy_explanation).

(** A second instance, one without a name, and two loaders. *)
Definition toy_instance' : RunExplainer.instance :=
  RunExplainer.mkInstance (RunExplainer.data0 toy_instance) ["slide_8"].

Definition nameless_instance : RunExplainer.instance :=
  RunExplainer.mkInstance (RunExplainer.data0 toy_instance) [].

Definition toy_explainer (_ : RunExplainer.instance) (_ : nat)
  : result (RunExplainer.matrix * RunExplainer.matrix * list Q * list Q) :=
  Ok (mask3, feats3, [1 # 2; 1 # 2]%Q, [1 # 2; 1 # 2]%Q).

Definition toy_loader : list (RunExplainer.instance * nat) :=
  [ (toy_instance, 0); (toy_instance', 1) ].

Definition broken_loader : list (RunExplainer.instance * nat) :=
  [ (toy_instance, 0); (nameless_instance, 1); (toy_instance', 0) ].

(** A stand-in for the strings that [int] accepts: the non-empty strings of
    decimal digits. *)
Definition is_digit (c : ascii) : bool :=
  (48 <=? nat_of_ascii c) && (nat_of_ascii c <=? 57).

Fixpoint all_digits (s : string) : bool :=
  match s with
  | EmptyString => false
  | String c EmptyString => is_digit c
  | String c s => is_digit c && all_digits s
  end.

End Demo.

(** * Properties *)

(** ** The error monad and the Python helpers *)

Section PyFacts.

Lemma bind_Ok_inv {A B : Type} (m : result A) (f : A → result B) (b : B) :
  m ≫= f = Ok b → ∃ a, m = Ok a ∧ f a = Ok b.
Proof. destruct m as [a|e]; [eauto | discriminate]. Qed.

Lemma subscript_Ok {V : Type} (d : gmap string V) (k : string) (v : V) :
  subscript d k = Ok v ↔ d !! k = Some v.
Proof.
  unfold subscript. destruct (d !! k); split; intros H; congruence.
Qed.

Lemma subscript_missing {V : Type} (d : gmap string V) (k : string) :
  d !! k = None → subscript d k = Raise (KeyError k).
Proof. unfold subscript. by intros ->. Qed.

Lemma getitem_lt {A : Type} (l : list A) (i : nat) :
  i < length l → ∃ x, l !! i = Some x ∧ getitem l i = Ok x.
Proof.
  intros Hi. destruct (lookup_lt_is_Some_2 l i Hi) as [x Hx].
  exists x. unfold getitem. by rewrite Hx.
Qed.

(** [combinations(range(a, a + n), 2)] lists exactly the increasing pairs. *)
Lemma elem_of_combinations2_seq (a n i j : nat) :
  (i, j) ∈ combinations2 (seq a n) ↔ a ≤ i ∧ i < j ∧ j < a + n.
Proof.
  revert a. induction n as [|n IH]; intros a; simpl.
  - rewrite elem_of_nil. lia.
  - rewrite elem_of_app, list_elem_of_fmap, IH. split.
    + intros [[y [Heq Hy]] | H].
      * injection Heq as -> ->. apply elem_of_seq in Hy. lia.
      * lia.
    + intros (Ha & Hij & Hj). destruct (decide (i = a)) as [->|Hne].
      * left. exists j. split; [done|]. apply elem_of_seq. lia.
      * right. lia.
Qed.

Lemma elem_of_combinations2_range (n i j : nat) :
  (i, j) ∈ combinations2 (range n) ↔ i < j ∧ j < n.
Proof. unfold range. rewrite elem_of_combinations2_seq. lia. Qed.

Lemma combinations2_range_nil (n : nat) :
  combinations2 (range n) = [] ↔ n < 2.
Proof.
  split.
  - intros Hnil. destruct (decide (n < 2)) as [|Hge]; [done|].
    assert (H01 : (0, 1) ∈ combinations2 (range n))
      by (apply elem_of_combinations2_range; lia).
    rewrite Hnil in H01. by apply elem_of_nil in H01.
  - intros Hn. destruct n as [|[|n]]; [done | done | lia].
Qed.

End PyFacts.

(** ** The graph builder *)

Section BuilderFacts.

Import KNN.

Context {value distance weight : Type}.
Variable truthy : value → bool.
Variable compute_l2_distance : list Z → list Z → distance.
Variable compute_edge_weight : distance → weight.
Variable gt : weight → value → bool.

Abbreviation loop :=
  (topology_loop compute_l2_distance compute_edge_weight gt).
Abbreviation topology :=
  (_build_topology compute_l2_distance compute_edge_weight gt).
Abbreviation call :=
  (__call__ truthy compute_l2_distance compute_edge_weight gt).
Abbreviation linked :=
  (connected compute_l2_distance compute_edge_weight gt).
Abbreviation paired :=
  (paired_edges compute_l2_distance compute_edge_weight gt).
Abbreviation topology_edges :=
  (KNN.topology_edges compute_l2_distance compute_edge_weight gt).
Abbreviation built :=
  (KNN.built compute_l2_distance compute_edge_weight gt).

Implicit Types (self : KNNGraphBuilder value) (objects : list object).
Implicit Types (g graph : DGLGraph) (centroid : list (list Z)).
Implicit Types (pairs acc : list (nat * nat)).

Lemma set_node_features_eq self objects graph :
  _set_node_features self objects graph =
    if tensorable objects then Ok (with_features objects graph)
    else Raise TensorError.
Proof.
  unfold _set_node_features, tensorable, LongTensor2, LongTensor1.
  destruct (rectangular _); simpl; [|done].
  destruct (forallb (forallb fits_int64) _); simpl; [|done].
  by destruct (forallb fits_int64 _).
Qed.

Lemma paired_cons threshold centroid p pairs :
  paired threshold centroid (p :: pairs) =
    (if linked threshold centroid p then [p; (p.2, p.1)] else [])
      ++ paired threshold centroid pairs.
Proof.
  unfold paired_edges. rewrite filter_cons.
  destruct (linked threshold centroid p); by case_decide.
Qed.

(** The loop, in closed form, on pairs of valid positions. *)
Lemma topology_loop_eq self centroid pairs acc :
  Forall (λ p, p.1 < length centroid ∧ p.2 < length centroid) pairs →
  loop self centroid pairs acc =
    match pairs, config self !! "edge_threshold" with
    | [], _ => Ok acc
    | _ :: _, None => Raise (KeyError "edge_threshold")
    | _ :: _, Some threshold => Ok (acc ++ paired threshold centroid pairs)
    end.
Proof.
  intros Hpairs. revert acc.
  induction Hpairs as [|p pairs [H1 H2] Hrest IH]; intros acc; [done|].
  simpl.
  destruct (getitem_lt centroid p.1 H1) as (c0 & Hc0 & ->).
  destruct (getitem_lt centroid p.2 H2) as (c1 & Hc1 & ->).
  simpl. unfold subscript.
  destruct (config self !! "edge_threshold") as [threshold|] eqn:Hthr;
    [|done].
  simpl. rewrite paired_cons. unfold connected at 1. rewrite Hc0, Hc1.
  destruct (gt _ threshold); rewrite IH.
  - destruct pairs; [by rewrite app_nil_r|]. by rewrite <- app_assoc.
  - by destruct pairs; [rewrite app_nil_r|].
Qed.

Lemma range_pairs_valid objects :
  Forall (λ p, p.1 < length (obj_centroid <$> objects)
             ∧ p.2 < length (obj_centroid <$> objects))
         (combinations2 (range (length objects))).
Proof.
  apply Forall_forall. intros [i j] Hij.
  apply elem_of_combinations2_range in Hij.
  rewrite length_fmap. simpl. lia.
Qed.

Lemma build_topology_eq self objects graph :
  topology self objects graph =
    match combinations2 (range (length objects)),
          config self !! "edge_threshold" with
    | _ :: _, None => Raise (KeyError "edge_threshold")
    | _, _ => Ok (add_edges (topology_edges self objects) graph)
    end.
Proof.
  unfold _build_topology, topology_edges.
  rewrite topology_loop_eq by apply range_pairs_valid.
  destruct (combinations2 _) as [|p pairs]; simpl.
  - by destruct (config self !! "edge_threshold").
  - by destruct (config self !! "edge_threshold").
Qed.

(** [__call__] in closed form: the conversion of the node features comes
    first, then the threshold is read if there is a pair to examine, then
    the edge encoding flag. *)
Lemma call_eq self objects image_size :
  call self objects image_size =
    if tensorable objects then
      match combinations2 (range (length objects)),
            config self !! "edge_threshold" with
      | _ :: _, None => Raise (KeyError "edge_threshold")
      | _, _ =>
          match config self !! "edge_encoding" with
          | Some _ => Ok (built self objects)
          | None => Raise (KeyError "edge_encoding")
          end
      end
    else Raise TensorError.
Proof.
  unfold __call__, built. rewrite set_node_features_eq.
  destruct (tensorable objects); [|done]. simpl.
  rewrite build_topology_eq.
  assert (Henc : ∀ g,
    (edge_encoding ← subscript (config self) "edge_encoding";
     if truthy edge_encoding then _set_edge_embeddings self objects g
     else Ok g) =
    match config self !! "edge_encoding" with
    | Some _ => Ok g
    | None => Raise (KeyError "edge_encoding")
    end).
  { intros g. unfold subscript, _set_edge_embeddings.
    destruct (config self !! "edge_encoding") as [v|]; simpl; [|done].
    by destruct (truthy v). }
  destruct (combinations2 _) as [|p pairs];
    destruct (config self !! "edge_threshold"); simpl; try apply Henc; done.
Qed.

Lemma call_Ok_inv self objects image_size g :
  call self objects image_size = Ok g →
  g = built self objects
  ∧ tensorable objects = true
  ∧ is_Some (config self !! "edge_encoding")
  ∧ (is_Some (config self !! "edge_threshold") ∨ length objects < 2).
Proof.
  rewrite call_eq. destruct (tensorable objects); [|done].
  destruct (combinations2 _) as [|p pairs] eqn:Hpairs.
  - apply combinations2_range_nil in Hpairs.
    destruct (config self !! "edge_threshold");
      destruct (config self !! "edge_encoding"); intros [= <-]; eauto 10.
  - destruct (config self !! "edge_threshold"); [|done].
    destruct (config self !! "edge_encoding"); intros [= <-]; eauto 10.
Qed.

Lemma call_Ok self objects image_size :
  tensorable objects = true →
  is_Some (config self !! "edge_encoding") →
  is_Some (config self !! "edge_threshold") ∨ length objects < 2 →
  call self objects image_size = Ok (built self objects).
Proof.
  intros Ht [enc Henc] Hthr. rewrite call_eq, Ht, Henc.
  destruct (combinations2 _) as [|p pairs] eqn:Hpairs; [done|].
  destruct Hthr as [[thr ->]|Hn]; [done|].
  apply combinations2_range_nil in Hn. congruence.
Qed.

(** Membership in the edge list: a pair or its reverse is connected. *)
Lemma elem_of_paired threshold centroid pairs i j :
  (i, j) ∈ paired threshold centroid pairs ↔
    ((i, j) ∈ pairs ∧ linked threshold centroid (i, j) = true)
    ∨ ((j, i) ∈ pairs ∧ linked threshold centroid (j, i) = true).
Proof.
  unfold paired_edges. rewrite list_elem_of_bind. split.
  - intros ([a b] & Hin & Hp). apply list_elem_of_filter in Hp as [Hc Hp].
    simpl in Hin. rewrite !elem_of_cons, elem_of_nil in Hin.
    destruct Hin as [[= -> ->] | [[= -> ->] | []]]; eauto.
  - intros [[Hp Hc] | [Hp Hc]].
    + exists (i, j). split; [set_solver|]. by apply list_elem_of_filter.
    + exists (j, i). split; [set_solver|]. by apply list_elem_of_filter.
Qed.

Lemma edges_built self objects :
  edges (built self objects) = topology_edges self objects.
Proof. done. Qed.

(** The edges of a built graph: [(i, j)] is an edge iff the positions are
    distinct and in range, and the pair taken in increasing order is
    connected. *)
Lemma elem_of_topology_edges self objects threshold i j :
  config self !! "edge_threshold" = Some threshold →
  (i, j) ∈ topology_edges self objects ↔
    i ≠ j ∧ i < length objects ∧ j < length objects
    ∧ linked threshold (obj_centroid <$> objects) (i `min` j, i `max` j)
      = true.
Proof.
  intros Hthr. unfold topology_edges. rewrite Hthr, elem_of_paired.
  rewrite !elem_of_combinations2_range. split.
  - intros [[[Hij Hj] Hc] | [[Hji Hi] Hc]].
    + rewrite Nat.min_l, Nat.max_r by lia. repeat split; [lia..|done].
    + rewrite Nat.min_r, Nat.max_l by lia. repeat split; [lia..|done].
  - intros (Hne & Hi & Hj & Hc). destruct (decide (i < j)) as [Hlt|Hge].
    + left. rewrite Nat.min_l, Nat.max_r in Hc by lia. split; [lia|done].
    + right. rewrite Nat.min_r, Nat.max_l in Hc by lia. split; [lia|done].
Qed.

Lemma topology_edges_no_threshold self objects :
  config self !! "edge_threshold" = None → topology_edges self objects = [].
Proof. unfold topology_edges. by intros ->. Qed.

Lemma topology_edges_small self objects :
  length objects < 2 → topology_edges self objects = [].
Proof.
  intros Hn. unfold topology_edges.
  apply combinations2_range_nil in Hn. rewrite Hn.
  by destruct (config self !! "edge_threshold").
Qed.

Lemma ndata_built self objects :
  ndata (built self objects) !! CENTROID
    = Some (Matrix (obj_centroid <$> objects))
  ∧ ndata (built self objects) !! LABEL
    = Some (Vector (obj_label <$> objects)).
Proof.
  unfold KNN.built, with_features, add_edges, set_ndata. simpl. split.
  - rewrite lookup_insert_ne by done. apply lookup_insert_eq.
  - apply lookup_insert_eq.
Qed.

Lemma node_attributes_built self objects i :
  node_centroid (built self objects) i = obj_centroid <$> objects !! i
  ∧ node_label (built self objects) i = obj_label <$> objects !! i.
Proof.
  unfold node_centroid, node_label.
  destruct (ndata_built self objects) as [-> ->].
  by rewrite !list_lookup_fmap.
Qed.

(** *** Node features *)

(** C1.  On objects that the tensor conversion accepts and with a
    configuration holding the keys that are read, [__call__] returns a
    graph with exactly [len(objects)] nodes whose ['centroid'] and
    ['label'] attributes are the centroids and labels of the objects, in
    input order: node [i] carries the centroid and the label of object
    [i], unchanged. *)
Theorem call_nodes_verbatim self objects image_size :
  tensorable objects = true →
  is_Some (config self !! "edge_encoding") →
  is_Some (config self !! "edge_threshold") ∨ length objects < 2 →
  ∃ g, __call__ truthy compute_l2_distance compute_edge_weight gt
      self objects image_size = Ok g
    ∧ number_of_nodes g = length objects
    ∧ ndata g !! CENTROID = Some (Matrix (obj_centroid <$> objects))
    ∧ ndata g !! LABEL = Some (Vector (obj_label <$> objects))
    ∧ ∀ i o, objects !! i = Some o →
        node_centroid g i = Some (obj_centroid o)
        ∧ node_label g i = Some (obj_label o).
Proof.
  intros Ht Henc Hthr. exists (built self objects).
  split; [by apply call_Ok|]. split; [done|].
  destruct (ndata_built self objects) as [Hc Hl].
  split; [done|]. split; [done|]. intros i o Ho.
  destruct (node_attributes_built self objects i) as [-> ->].
  by rewrite Ho.
Qed.

(** *** Topology *)

(** C2.  The edges of every graph that [__call__] returns are symmetric,
    [(i, j)] is an edge iff [(j, i)] is, and none is a self-loop. *)
Theorem call_edges_symmetric_no_loop self objects image_size g :
  __call__ truthy compute_l2_distance compute_edge_weight gt
      self objects image_size = Ok g →
  (∀ i j, (i, j) ∈ edges g ↔ (j, i) ∈ edges g)
  ∧ (∀ i, (i, i) ∉ edges g).
Proof.
  intros Hcall. apply call_Ok_inv in Hcall as (-> & _ & _ & _).
  rewrite edges_built.
  destruct (config self !! "edge_threshold") as [threshold|] eqn:Hthr.
  - split.
    + intros i j. rewrite !(elem_of_topology_edges _ _ threshold) by done.
      rewrite (Nat.min_comm j i), (Nat.max_comm j i).
      split; intros (Hne & Hi & Hj & Hc); auto.
    + intros i Hi.
      apply (elem_of_topology_edges _ _ threshold) in Hi; [|done].
      by destruct Hi as [Hne _].
  - rewrite topology_edges_no_threshold by done.
    split; [by intros i j; rewrite !elem_of_nil |].
    intros i. apply not_elem_of_nil.
Qed.

(** C3.  In every graph that [__call__] returns, two distinct nodes are
    joined by the two directed edges [(i, j)] and [(j, i)] iff the weight
    computed from the distance of their centroids exceeds
    [config['edge_threshold']].  The distance is the one the code
    evaluates: on the centroid of the smaller position, then that of the
    larger one. *)
Theorem call_edge_iff_weight_exceeds self objects image_size g
    threshold i j ci cj :
  __call__ truthy compute_l2_distance compute_edge_weight gt
      self objects image_size = Ok g →
  config self !! "edge_threshold" = Some threshold →
  i ≠ j →
  (obj_centroid <$> objects) !! (i `min` j) = Some ci →
  (obj_centroid <$> objects) !! (i `max` j) = Some cj →
  ((i, j) ∈ edges g ∧ (j, i) ∈ edges g) ↔
    gt (compute_edge_weight (compute_l2_distance ci cj)) threshold = true.
Proof.
  intros Hcall Hthr Hne Hci Hcj.
  apply call_Ok_inv in Hcall as (-> & _ & _ & _). rewrite edges_built.
  rewrite !(elem_of_topology_edges _ _ threshold) by done.
  rewrite (Nat.min_comm j i), (Nat.max_comm j i).
  unfold connected. simpl. rewrite Hci, Hcj.
  apply lookup_lt_Some in Hci, Hcj. rewrite length_fmap in Hci, Hcj.
  split; [by intros [(_ & _ & _ & Hgt) _]|]. intros Hgt.
  split; (split; [lia|]; split; [lia|]; split; [lia|done]).
Qed.

(** *** Missing configuration keys *)

(** C4, as the code has it.  On objects that the tensor conversion
    accepts, if the configuration lacks ['edge_encoding'], or lacks
    ['edge_threshold'] while there are at least two objects, then
    [__call__] raises Python's [KeyError] for a key that is missing. *)
Theorem call_missing_key self objects image_size :
  tensorable objects = true →
  config self !! "edge_encoding" = None
  ∨ (config self !! "edge_threshold" = None ∧ 2 ≤ length objects) →
  ∃ key, (key = "edge_threshold" ∨ key = "edge_encoding")
    ∧ config self !! key = None
    ∧ __call__ truthy compute_l2_distance compute_edge_weight gt
        self objects image_size = Raise (KeyError key).
Proof.
  intros Ht Hmissing. rewrite call_eq, Ht.
  destruct (combinations2 _) as [|p pairs] eqn:Hpairs.
  - apply combinations2_range_nil in Hpairs.
    destruct Hmissing as [Henc | [_ Hn]]; [|lia].
    exists "edge_encoding". rewrite Henc.
    split; [by right|]. split; [done|].
    by destruct (config self !! "edge_threshold").
  - destruct (config self !! "edge_threshold") as [thr|] eqn:Hthr.
    + destruct Hmissing as [Henc | [[=] _]].
      exists "edge_encoding". rewrite Henc. auto.
    + exists "edge_threshold". auto.
Qed.

(** C5.  With fewer than two objects [__call__] returns: the graph has one
    node per object, the node features set, and no edge.  The
    configuration needs ['edge_encoding'] only; the threshold is not
    read. *)
Theorem call_fewer_than_two_objects self objects image_size :
  length objects < 2 →
  tensorable objects = true →
  is_Some (config self !! "edge_encoding") →
  ∃ g, __call__ truthy compute_l2_distance compute_edge_weight gt
      self objects image_size = Ok g
    ∧ number_of_nodes g = length objects
    ∧ ndata g !! CENTROID = Some (Matrix (obj_centroid <$> objects))
    ∧ ndata g !! LABEL = Some (Vector (obj_label <$> objects))
    ∧ edges g = [].
Proof.
  intros Hn Ht Henc. exists (built self objects).
  split; [apply call_Ok; auto|]. split; [done|].
  destruct (ndata_built self objects) as [Hc Hl].
  split; [done|]. split; [done|].
  rewrite edges_built. by apply topology_edges_small.
Qed.

(** *** The unused argument *)

(** C10.  [image_size] is not used: two calls that differ in it only give
    the same result; and the edges of a returned graph depend on the
    centroids of the objects and on [config['edge_threshold']] only. *)
Theorem call_ignores_image_size self objects image_size1 image_size2 :
  __call__ truthy compute_l2_distance compute_edge_weight gt
      self objects image_size1
  = __call__ truthy compute_l2_distance compute_edge_weight gt
      self objects image_size2
  ∧ ∀ self' objects' g g',
      obj_centroid <$> objects = obj_centroid <$> objects' →
      config self !! "edge_threshold" = config self' !! "edge_threshold" →
      __call__ truthy compute_l2_distance compute_edge_weight gt
          self objects image_size1 = Ok g →
      __call__ truthy compute_l2_distance compute_edge_weight gt
          self' objects' image_size2 = Ok g' →
      edges g = edges g'.
Proof.
  split; [by rewrite !call_eq|].
  intros self' objects' g g' Hc Hthr Hg Hg'.
  apply call_Ok_inv in Hg as (-> & _ & _ & _).
  apply call_Ok_inv in Hg' as (-> & _ & _ & _).
  rewrite !edges_built. unfold KNN.topology_edges.
  rewrite Hthr, Hc.
  assert (Hlen : length objects = length objects')
    by (rewrite <- (length_fmap obj_centroid objects), Hc;
        apply length_fmap).
  by rewrite Hlen.
Qed.

End BuilderFacts.

(** ** The graph builder on a store *)

Section StoreFacts.

Import KNN.

Context {value distance weight : Type}.
Variable truthy : value → bool.
Variable compute_l2_distance : list Z → list Z → distance.
Variable compute_edge_weight : distance → weight.
Variable gt : weight → value → bool.

Implicit Types (σ : Stateful.store value).

Lemma alter_last {A : Type} (f : A → A) (l : list A) (x : A) :
  alter f (length l) (l ++ [x]) = l ++ [f x].
Proof.
  replace (length l) with (length l + 0) by lia.
  by rewrite alter_app_r.
Qed.

(** The loop reads the store and leaves it as it is: it computes what the
    loop of the functional embedding computes for the builder of the
    store. *)
Lemma topology_loop_run σ centroid pairs edge_list :
  Stateful.topology_loop compute_l2_distance compute_edge_weight gt
    centroid pairs edge_list σ
  = (KNN.topology_loop compute_l2_distance compute_edge_weight gt
       (Stateful.self σ) centroid pairs edge_list, σ).
Proof.
  revert edge_list. induction pairs as [|pr pairs IH]; intros edge_list;
    [done|].
  simpl. unfold Stateful.then_step, Stateful.pure_step, Stateful.get_config.
  destruct (getitem centroid pr.1) as [c0|e]; [|done].
  destruct (getitem centroid pr.2) as [c1|e]; [|done]. simpl.
  destruct (subscript (Stateful.self_config σ) "edge_threshold")
    as [threshold|e]; [|done].
  simpl. destruct (gt _ threshold); apply IH.
Qed.

(** A call allocates one graph, after those that exist, and touches
    nothing else; its outcome is that of the functional embedding on the
    builder and the objects of the store, and on success the new graph is
    the graph that the functional embedding returns. *)
Lemma call_run σ image_size :
  ∃ g',
    Stateful.__call__ truthy compute_l2_distance compute_edge_weight gt
      image_size σ
    = (match KNN.__call__ truthy compute_l2_distance compute_edge_weight gt
               (Stateful.self σ) (Stateful.objects σ) image_size with
       | Ok _ => Ok (length (Stateful.graphs σ))
       | Raise e => Raise e
       end,
       Stateful.mkStore (Stateful.self_config σ) (Stateful.self_cuda σ)
         (Stateful.objects σ) (Stateful.graphs σ ++ [g']))
    ∧ ∀ g, KNN.__call__ truthy compute_l2_distance compute_edge_weight gt
             (Stateful.self σ) (Stateful.objects σ) image_size = Ok g →
           g' = g.
Proof.
  destruct σ as [cfg cu objs gs].
  unfold Stateful.__call__, Stateful._set_node_features,
    Stateful._build_topology, Stateful._set_edge_embeddings,
    KNN.__call__, KNN._set_node_features, KNN._build_topology,
    KNN._set_edge_embeddings.
  unfold Stateful.then_step, Stateful.get_objects, Stateful.new_graph,
    Stateful.update_graph, Stateful.pure_step, Stateful.unit_step,
    Stateful.get_config, Stateful.self.
  simpl. rewrite alter_last.
  destruct (LongTensor2 (obj_centroid <$> objs)) as [c|e]; simpl;
    [|eexists; split; [done | by intros g [=]]].
  rewrite alter_last.
  destruct (LongTensor1 (obj_label <$> objs)) as [l|e]; simpl;
    [|eexists; split; [done | by intros g [=]]].
  rewrite alter_last, topology_loop_run. unfold Stateful.self. simpl.
  destruct (KNN.topology_loop _ _ _ _ _ _ _) as [edge_list|e]; simpl;
    [|eexists; split; [done | by intros g [=]]].
  rewrite alter_last.
  destruct (subscript cfg "edge_encoding") as [enc|e]; simpl;
    [|eexists; split; [done | by intros g [=]]].
  destruct (truthy enc); simpl; eexists; (split; [done | by intros g [= <-]]).
Qed.

(** C6.  Two invocations in a row, on the same builder, the same list of
    objects and the same image size, produce identical graphs.  The second
    call runs on the store that the first one left: it returns a new graph,
    different from the first as an object and equal to it in nodes, node
    attributes and edge list; the first graph is as it was, and so are the
    configuration of the builder and the objects. *)
Theorem call_twice_identical σ image_size graph1 σ1 :
  Stateful.__call__ truthy compute_l2_distance compute_edge_weight gt
    image_size σ = (Ok graph1, σ1) →
  ∃ graph2 σ2 g,
    Stateful.__call__ truthy compute_l2_distance compute_edge_weight gt
      image_size σ1 = (Ok graph2, σ2)
    ∧ graph1 ≠ graph2
    ∧ Stateful.graphs σ1 !! graph1 = Some g
    ∧ Stateful.graphs σ2 !! graph1 = Some g
    ∧ Stateful.graphs σ2 !! graph2 = Some g
    ∧ Stateful.self_config σ2 = Stateful.self_config σ
    ∧ Stateful.self_cuda σ2 = Stateful.self_cuda σ
    ∧ Stateful.objects σ2 = Stateful.objects σ.
Proof.
  intros Hrun. destruct (call_run σ image_size) as (g & Hcall & Hg).
  rewrite Hcall in Hrun. clear Hcall.
  destruct (KNN.__call__ _ _ _ _ _ _ _) as [g0|e] eqn:Hpure; [|done].
  specialize (Hg g0 eq_refl) as ->. injection Hrun as <- <-.
  destruct (call_run
              (Stateful.mkStore (Stateful.self_config σ)
                 (Stateful.self_cuda σ) (Stateful.objects σ)
                 (Stateful.graphs σ ++ [g0])) image_size)
    as (g' & Hcall' & Hg').
  unfold Stateful.self in Hcall', Hg'. simpl in Hcall', Hg'.
  unfold Stateful.self in Hpure. rewrite Hpure in Hcall', Hg'.
  specialize (Hg' g0 eq_refl) as ->.
  eexists _, _, g0. split; [exact Hcall'|]. simpl.
  rewrite !length_app. simpl.
  split; [lia|]. split; [apply list_lookup_middle; done|].
  split.
  - rewrite <- app_assoc. by apply list_lookup_middle.
  - split; [|done].
    replace (length (Stateful.graphs σ) + 1)
      with (length (Stateful.graphs σ ++ [g0]))
      by (rewrite length_app; simpl; lia).
    by apply list_lookup_middle.
Qed.

End StoreFacts.

(** ** The explainer loop *)

Section ExplainFacts.

Import SingleInstanceExplainer.

Context {graph prediction mask : Type}.
Variable forward : graph → option prediction.
Variable init_mask : graph → mask.
Variable apply_mask : mask → graph → graph.
Variable update : mask → prediction → prediction → mask.

Abbreviation optimize_ := (optimize forward apply_mask update).
Abbreviation explain_ := (explain forward init_mask apply_mask update).

Lemma invoke_Some g p : forward g = Some p → invoke forward g = Ok p.
Proof. unfold invoke. by intros ->. Qed.

(** The counter grows by one per iteration. *)
Lemma optimize_iterations epochs g orig m ran m' ran' :
  optimize_ epochs g orig m ran = Ok (m', ran') → ran' = ran + epochs.
Proof.
  revert m ran. induction epochs as [|epochs IH]; intros m ran; simpl.
  - intros [= _ <-]. lia.
  - intros H. apply bind_Ok_inv in H as (p & _ & H).
    apply IH in H. lia.
Qed.

(** With a model that does not raise, the loop runs to its end. *)
Lemma optimize_returns epochs g orig m ran :
  (∀ g', is_Some (forward g')) →
  ∃ m', optimize_ epochs g orig m ran = Ok (m', ran + epochs).
Proof.
  intros Htotal. revert m ran.
  induction epochs as [|epochs IH]; intros m ran; simpl.
  - exists m. by rewrite Nat.add_0_r.
  - destruct (Htotal (apply_mask m g)) as [p Hp].
    rewrite (invoke_Some _ _ Hp). simpl.
    destruct (IH (update m p orig) (S ran)) as [m' ->].
    exists m'. do 2 f_equal. lia.
Qed.

(** C7.  With a model whose forward pass does not raise and
    [num_epochs >= 1], [explain] returns after exactly [num_epochs]
    iterations of the optimization loop; with [num_epochs = 0] it fails
    with [InvalidConfigError]. *)
Theorem explain_runs_num_epochs num_epochs g :
  (∀ g', is_Some (forward g')) →
  (1 ≤ num_epochs)%Z →
  (∃ e, explain forward init_mask apply_mask update num_epochs g = Ok e
      ∧ Z.of_nat (iterations e) = num_epochs)
  ∧ explain forward init_mask apply_mask update 0 g
    = Raise InvalidConfigError.
Proof.
  intros Htotal Hn. split; [|done]. unfold explain.
  destruct (Z.leb_spec num_epochs 0) as [Hle|_]; [lia|].
  destruct (Htotal g) as [orig Horig].
  destruct (optimize_returns (Z.to_nat num_epochs) g orig (init_mask g) 0
              Htotal) as [m Hm].
  destruct (Htotal (apply_mask m g)) as [exp Hexp].
  exists (mkExplanation (apply_mask m g) orig exp (Z.to_nat num_epochs)).
  split; [|simpl; lia].
  rewrite (invoke_Some _ _ Horig). simpl. rewrite Hm. simpl.
  by rewrite (invoke_Some _ _ Hexp).
Qed.

End ExplainFacts.

(** ** Post-processing of an explanation *)

Section PostprocessFacts.

Import RunExplainer.

Lemma exceeds_lt (x threshold : Q) :
  exceeds x threshold = true ↔ (threshold < x)%Q.
Proof.
  unfold exceeds. rewrite negb_true_iff, <- not_true_iff_false, Qle_bool_iff.
  split; [apply Qnot_le_lt | apply Qlt_not_le].
Qed.

Lemma elem_of_mask_select {A : Type} (mask : list bool) (l : list A) x :
  x ∈ mask_select mask l → x ∈ l.
Proof.
  revert l. induction mask as [|b mask IH]; intros [|y l]; simpl;
    try (by intros ?%elem_of_nil).
  destruct b; rewrite ?elem_of_cons.
  - intros [-> | Hx]; [by left | right; by apply IH].
  - intros Hx. right. by apply IH.
Qed.

(** The positions selected by a mask are those where it is true. *)
Lemma elem_of_mask_select_seq (mask : list bool) (s i : nat) :
  i ∈ mask_select mask (seq s (length mask)) ↔
    s ≤ i ∧ mask !! (i - s) = Some true.
Proof.
  revert s. induction mask as [|b mask IH]; intros s; simpl.
  - rewrite elem_of_nil. split; [done | by intros [_ ?]].
  - assert (Hrec : i ∈ mask_select mask (seq (S s) (length mask)) ↔
                   s < i ∧ (b :: mask) !! (i - s) = Some true).
    { rewrite IH. split.
      - intros [Hle Hm]. split; [lia|].
        replace (i - s) with (S (i - S s)) by lia. done.
      - intros [Hlt Hm]. split; [lia|].
        replace (i - s) with (S (i - S s)) in Hm by lia. done. }
    destruct b.
    + rewrite elem_of_cons, Hrec. split.
      * intros [-> | [Hlt Hm]]; [|split; [lia|done]].
        split; [lia|]. by rewrite Nat.sub_diag.
      * intros [Hle Hm]. destruct (decide (i = s)) as [->|Hne]; [by left|].
        right. split; [lia|done].
    + rewrite Hrec. split.
      * intros [Hlt Hm]. split; [lia|done].
      * intros [Hle Hm]. destruct (decide (i = s)) as [->|Hne].
        -- rewrite Nat.sub_diag in Hm. discriminate.
        -- split; [lia|done].
Qed.

(** Selecting from a list is selecting positions, then reading them. *)
Lemma mask_select_lookup {A : Type} (mask : list bool) (l : list A)
    (s a : nat) (x : A) :
  length mask = length l →
  mask_select mask l !! a = Some x ↔
    ∃ i, mask_select mask (seq s (length mask)) !! a = Some (s + i)
         ∧ l !! i = Some x.
Proof.
  revert l s a. induction mask as [|b mask IH]; intros [|y l] s a Hlen;
    simpl in Hlen; try discriminate.
  - simpl. rewrite lookup_nil. split; [done | by intros (i & ? & ?)].
  - injection Hlen as Hlen.
    assert (Hrec : ∀ a', mask_select mask l !! a' = Some x ↔
              ∃ i, mask_select mask (seq (S s) (length mask)) !! a'
                     = Some (s + i)
                   ∧ (y :: l) !! i = Some x).
    { intros a'. rewrite (IH l (S s) a' Hlen). split.
      - intros (i & Hi & Hx). exists (S i). split; [|done].
        rewrite Hi. f_equal. lia.
      - intros (i & Hi & Hx). destruct i as [|i].
        + apply list_elem_of_lookup_2, elem_of_mask_select, elem_of_seq
            in Hi. lia.
        + exists i. split; [|done]. rewrite Hi. f_equal. lia. }
    simpl. destruct b; [|apply Hrec].
    destruct a as [|a]; [|apply Hrec]. simpl. split.
    + intros [= ->]. exists 0. split; [f_equal; lia | done].
    + intros (i & [= Hi] & Hx). assert (i = 0) as -> by lia.
      by injection Hx as ->.
Qed.

Lemma mask_select_length {A B : Type} (mask : list bool)
    (l : list A) (l' : list B) :
  length mask = length l → length mask = length l' →
  length (mask_select mask l) = length (mask_select mask l').
Proof.
  revert l l'. induction mask as [|b mask IH]; intros [|x l] [|x' l'];
    simpl; try discriminate; [done|].
  intros [= Hl] [= Hl']. destruct b; simpl; rewrite (IH l l'); done.
Qed.

Lemma length_nonzero_sum_rows (feats : matrix) :
  length (nonzero_sum_rows feats) = length feats.
Proof. unfold nonzero_sum_rows. apply length_fmap. Qed.

(** A node is kept iff the sum of its feature row is not zero. *)
Lemma elem_of_kept_nodes (feats : matrix) (i : nat) :
  i ∈ kept_nodes feats ↔
    ∃ row, feats !! i = Some row ∧ ¬ (row_sum row == 0)%Q.
Proof.
  unfold kept_nodes, range.
  rewrite <- (length_nonzero_sum_rows feats).
  rewrite elem_of_mask_select_seq, Nat.sub_0_r.
  unfold nonzero_sum_rows. rewrite list_lookup_fmap. split.
  - intros [_ Hi]. apply fmap_Some in Hi as (row & Hrow & Hi).
    exists row. split; [done|]. symmetry in Hi.
    apply negb_true_iff in Hi. intros Heq.
    apply Qeq_bool_iff in Heq. congruence.
  - intros (row & Hrow & Hne). split; [lia|].
    apply fmap_Some. exists row. split; [done|]. symmetry.
    apply negb_true_iff, not_true_iff_false. intros Heq.
    by apply Hne, Qeq_bool_iff.
Qed.

Lemma elem_of_row_edges (threshold : Q) (i : nat) (row : list Q) a b :
  (a, b) ∈ row_edges threshold i row ↔
    a = i ∧ ∃ w, row !! b = Some w ∧ exceeds w threshold = true.
Proof.
  unfold row_edges. rewrite list_elem_of_fmap. split.
  - intros ([j w] & [= -> ->] & Hin).
    apply list_elem_of_filter in Hin as [Hw Hin].
    apply elem_of_lookup_imap in Hin as (j' & w' & [= -> ->] & Hrow).
    eauto.
  - intros (-> & w & Hrow & Hw). exists (b, w). split; [done|].
    apply list_elem_of_filter. split; [done|].
    apply elem_of_lookup_imap. eauto.
Qed.

(** The edges that [adj_to_networkx] makes are the cells above the
    threshold. *)
Lemma elem_of_adj_to_networkx adj feats threshold centroids a b :
  (a, b) ∈ graph_edges (adj_to_networkx adj feats threshold centroids) ↔
    ∃ row w, adj !! a = Some row ∧ row !! b = Some w
             ∧ exceeds w threshold = true.
Proof.
  simpl. rewrite list_elem_of_join. split.
  - intros (es & Hin & Hes).
    apply elem_of_lookup_imap in Hes as (i & row & -> & Hrow).
    apply elem_of_row_edges in Hin as (-> & w & Hw & Hgt). eauto.
  - intros (row & w & Hrow & Hw & Hgt).
    exists (row_edges threshold a row). split.
    + apply elem_of_row_edges. eauto.
    + apply elem_of_lookup_imap. eauto.
Qed.

Lemma kept_nodes_lookup {A : Type} (feats : matrix) (l : list A) a x :
  length l = length feats →
  mask_select (nonzero_sum_rows feats) l !! a = Some x ↔
    ∃ i, kept_nodes feats !! a = Some i ∧ l !! i = Some x.
Proof.
  intros Hlen.
  rewrite (mask_select_lookup _ l 0)
    by (by rewrite length_nonzero_sum_rows).
  unfold kept_nodes, range. by rewrite length_nonzero_sum_rows.
Qed.

Lemma incident_true (a : nat) (es : list (nat * nat)) :
  incident a es = true ↔ ∃ b, (a, b) ∈ es ∨ (b, a) ∈ es.
Proof.
  unfold incident. rewrite existsb_exists. split.
  - intros ([x y] & Hin & He). apply list_elem_of_In in Hin.
    apply orb_true_iff in He as [He | He]; apply Nat.eqb_eq in He;
      simpl in He; subst; eauto.
  - intros (b & [Hin | Hin]); apply list_elem_of_In in Hin.
    + exists (a, b). split; [done|]. simpl. by rewrite Nat.eqb_refl.
    + exists (b, a). split; [done|]. simpl.
      rewrite Nat.eqb_refl. apply orb_true_r.
Qed.

(** The nodes that [adj_to_networkx] leaves are the ends of its edges. *)
Lemma elem_of_nodes_adj_to_networkx adj feats threshold centroids a :
  Forall (λ row, length row = length adj) adj →
  a ∈ nodes (adj_to_networkx adj feats threshold centroids) ↔
    ∃ b,
      (a, b) ∈ graph_edges (adj_to_networkx adj feats threshold centroids)
      ∨ (b, a) ∈ graph_edges
                   (adj_to_networkx adj feats threshold centroids).
Proof.
  intros Hsquare.
  change (nodes (adj_to_networkx adj feats threshold centroids))
    with (filter (λ a, incident a (graph_edges
                    (adj_to_networkx adj feats threshold centroids)) = true)
            (range (length adj))).
  rewrite list_elem_of_filter, incident_true. split; [by intros [? _]|].
  intros Hends. split; [done|]. unfold range. apply elem_of_seq.
  split; [lia|]. simpl. destruct Hends as (b & [Hin | Hin]);
    apply elem_of_adj_to_networkx in Hin as (row & w & Hrow & Hw & _).
  - by apply lookup_lt_Some in Hrow.
  - apply lookup_lt_Some in Hw.
    eapply Forall_lookup_1 in Hsquare; [|exact Hrow]. simpl in Hsquare. lia.
Qed.

(** C8, as the code has it.  For a masked adjacency of shape [N x N] and
    masked features with [N] rows, [N] other than one (where [squeeze()]
    would leave a scalar mask): the nodes whose feature row has a non-zero
    sum are selected and renumbered in increasing order; the explanation
    graph keeps exactly the edges between two selected nodes whose mask
    weight exceeds the threshold, and of the selected nodes exactly those
    that are an end of a kept edge.  On the mask
    [{(0,1): 0.9, (1,2): 0.1}] with threshold 0.5 and three nodes with
    features this leaves the edge [(0, 1)] with its two ends and drops
    [(1, 2)]. *)
Theorem postprocess_keeps adj feats threshold centroids :
  length feats ≠ 1 →
  length adj = length feats →
  Forall (λ row, length row = length feats) adj →
  (∀ i, i ∈ kept_nodes feats ↔
     ∃ row, feats !! i = Some row ∧ ¬ (row_sum row == 0)%Q)
  ∧ (∀ a b,
       (a, b) ∈ graph_edges (postprocess adj feats threshold centroids) ↔
       ∃ i j row w,
         kept_nodes feats !! a = Some i ∧ kept_nodes feats !! b = Some j
         ∧ adj !! i = Some row ∧ row !! j = Some w ∧ (threshold < w)%Q)
  ∧ (∀ a,
       a ∈ nodes (postprocess adj feats threshold centroids) ↔
       ∃ b, (a, b) ∈ graph_edges (postprocess adj feats threshold centroids)
            ∨ (b, a) ∈ graph_edges
                         (postprocess adj feats threshold centroids))
  ∧ graph_edges
      (postprocess Demo.mask3 Demo.feats3 (1 # 2) Demo.centroids3)
    = [(0, 1)]
  ∧ nodes (postprocess Demo.mask3 Demo.feats3 (1 # 2) Demo.centroids3)
    = [0; 1].
Proof.
  intros _ Hadj Hrows. split; [|split; [|split; [|split]]].
  - apply elem_of_kept_nodes.
  - intros a b. unfold postprocess. rewrite elem_of_adj_to_networkx.
    unfold select_columns, select_rows. split.
    + intros (row' & w & Hrow' & Hw & Hgt).
      rewrite list_lookup_fmap in Hrow'.
      apply fmap_Some in Hrow' as (row & Hrow & ->).
      apply kept_nodes_lookup in Hrow as (i & Hi & Hrow); [|done].
      assert (Hlen : length row = length feats)
        by (eapply Forall_lookup_1 in Hrows; eauto).
      apply kept_nodes_lookup in Hw as (j & Hj & Hw); [|done].
      exists i, j, row, w. by rewrite <- exceeds_lt.
    + intros (i & j & row & w & Hi & Hj & Hrow & Hw & Hgt).
      assert (Hlen : length row = length feats)
        by (eapply Forall_lookup_1 in Hrows; eauto).
      exists (mask_select (nonzero_sum_rows feats) row), w.
      split; [|split].
      * rewrite list_lookup_fmap. apply fmap_Some. exists row.
        split; [|done]. apply kept_nodes_lookup; eauto.
      * apply kept_nodes_lookup; eauto.
      * by apply exceeds_lt.
  - intros a. unfold postprocess. apply elem_of_nodes_adj_to_networkx.
    unfold select_columns, select_rows. rewrite length_fmap.
    apply Forall_fmap, Forall_forall. intros row Hrow. simpl.
    apply elem_of_mask_select in Hrow.
    eapply Forall_forall in Hrows; [|exact Hrow].
    apply mask_select_length; rewrite length_nonzero_sum_rows; congruence.
  - by vm_compute.
  - by vm_compute.
Qed.

End PostprocessFacts.

(** ** The metadata of an explained instance *)

Section MetaDataFacts.

Import RunExplainer.

Lemma dict_get_set_eq k v d : dict_get k (dict_set k v d) = Ok v.
Proof.
  induction d as [|[k' v'] d IH]; simpl.
  - by rewrite String.eqb_refl.
  - destruct (String.eqb_spec k k') as [->|Hne]; simpl.
    + by rewrite String.eqb_refl.
    + by destruct (String.eqb_spec k k').
Qed.

Lemma dict_get_set_ne k k' v d :
  k ≠ k' → dict_get k (dict_set k' v d) = dict_get k d.
Proof.
  intros Hne. induction d as [|[k0 v0] d IH]; simpl.
  - by destruct (String.eqb_spec k k').
  - destruct (String.eqb_spec k' k0) as [->|Hne0]; simpl.
    + by destruct (String.eqb_spec k k0).
    + destruct (String.eqb_spec k k0); [done|apply IH].
Qed.

Context (render : list Q → string) {label : Type}.
Variable explain :
  instance → label → result (matrix * matrix * list Q * list Q).

(** C9.  The metadata written for an explained instance is the object
    [{config: {...}, output: {original: {prediction, number_of_nodes,
    number_of_edges}, explanation: {number_of_nodes, number_of_edges,
    explanation_prediction}}}]: [config] is [config['explainer']] with
    the number of epochs and the learning rate recorded in it, the counts
    are those of the cell graph and of the explanation graph, and the two
    prediction entries are the rendering of the numeric vectors that the
    explainer returned. *)
Theorem meta_data_schema config args data lbl config' g file meta :
  explain_instance render explain config args data lbl
    = Ok (config', g, (file, meta)) →
  ∃ adj feats orig_pred exp_pred explainer_config,
    explain data lbl = Ok (adj, feats, orig_pred, exp_pred)
    ∧ config' !! "explainer" = Some (JObject explainer_config)
    ∧ dict_get "number_of_epochs" explainer_config
        = Ok (JInt (epochs args))
    ∧ dict_get "learning_rate" explainer_config
        = Ok (JFloat (learning_rate args))
    ∧ meta = JObject
        [ ("config", JObject explainer_config);
          ("output", JObject
            [ ("original", JObject
                [ ("prediction", JString (render orig_pred));
                  ("number_of_nodes",
                     JInt (Z.of_nat (number_of_nodes (data0 data))));
                  ("number_of_edges",
                     JInt (Z.of_nat (number_of_edges (data0 data)))) ]);
              ("explanation", JObject
                [ ("number_of_nodes", JInt (Z.of_nat (length (nodes g))));
                  ("number_of_edges",
                     JInt (Z.of_nat (length (graph_edges g))));
                  ("explanation_prediction",
                     JString (render exp_pred)) ]) ]) ].
Proof.
  unfold explain_instance. intros H.
  apply bind_Ok_inv in H as ([[[adj feats] orig_pred] exp_pred] & He & H).
  apply bind_Ok_inv in H as (t & _ & H).
  apply bind_Ok_inv in H as (centroids & _ & H).
  apply bind_Ok_inv in H as (v & _ & H).
  apply bind_Ok_inv in H as (explainer_config & _ & H).
  apply bind_Ok_inv in H as (v' & _ & H).
  apply bind_Ok_inv in H as (adj_thresh & _ & H).
  apply bind_Ok_inv in H as (name & _ & H).
  simpl in H. injection H as <- <- <- <-.
  eexists adj, feats, orig_pred, exp_pred, _.
  split; [done|]. split; [apply lookup_insert_eq|].
  split; [|split; [apply dict_get_set_eq | done]].
  rewrite dict_get_set_ne by done. apply dict_get_set_eq.
Qed.

End MetaDataFacts.

(** ** Concrete runs *)

Section Runs.

Import KNN Demo.

(** Five objects on a line at unit spacing, with a threshold that only
    neighbours pass: five nodes and eight directed edges. *)
Example build_line5 :
  build cfg line5 [512; 512]%Z = Ok graph5
  ∧ number_of_nodes graph5 = 5
  ∧ edges graph5
    = [(0, 1); (1, 0); (1, 2); (2, 1); (2, 3); (3, 2); (3, 4); (4, 3)].
Proof. by vm_compute. Qed.

Lemma call_nodes_verbatim_witness :
  ∃ g, build cfg line5 [512; 512]%Z = Ok g
    ∧ number_of_nodes g = length line5
    ∧ ndata g !! CENTROID = Some (Matrix (obj_centroid <$> line5))
    ∧ ndata g !! LABEL = Some (Vector (obj_label <$> line5))
    ∧ ∀ i o, line5 !! i = Some o →
        node_centroid g i = Some (obj_centroid o)
        ∧ node_label g i = Some (obj_label o).
Proof.
  apply (call_nodes_verbatim truthy sq_distance inverse_weight gt
           builder line5 [512; 512]%Z).
  - reflexivity.
  - eexists. reflexivity.
  - left. eexists. reflexivity.
Defined.

Lemma call_edges_symmetric_no_loop_witness :
  (∀ i j, (i, j) ∈ edges graph5 ↔ (j, i) ∈ edges graph5)
  ∧ (∀ i, (i, i) ∉ edges graph5).
Proof.
  apply (call_edges_symmetric_no_loop truthy sq_distance inverse_weight gt
           builder line5 [512; 512]%Z graph5).
  vm_compute. reflexivity.
Defined.

Lemma call_edge_iff_weight_exceeds_witness :
  ((0, 1) ∈ edges graph5 ∧ (1, 0) ∈ edges graph5) ↔
    gt (inverse_weight (sq_distance [0; 0]%Z [1; 0]%Z)) (PyFloat (1 # 4))
      = true.
Proof.
  apply (call_edge_iff_weight_exceeds truthy sq_distance inverse_weight gt
           builder line5 [512; 512]%Z graph5 (PyFloat (1 # 4)) 0 1
           [0; 0]%Z [1; 0]%Z).
  - vm_compute. reflexivity.
  - reflexivity.
  - lia.
  - reflexivity.
  - reflexivity.
Defined.

(** A configuration without ['edge_threshold'] builds a graph from a
    single object; and where a key is missed, the failure is Python's
    [KeyError]. *)
Lemma missing_threshold_unnoticed :
  cfg_no_threshold !! "edge_threshold" = None
  ∧ (∃ g, build cfg_no_threshold (take 1 line5) [512; 512]%Z = Ok g)
  ∧ build cfg_no_threshold line5 [512; 512]%Z
    = Raise (KeyError "edge_threshold")
  ∧ build cfg_no_encoding line5 [512; 512]%Z
    = Raise (KeyError "edge_encoding").
Proof.
  split; [reflexivity|]. split; [|split; vm_compute; reflexivity].
  eexists. vm_compute. reflexivity.
Qed.

Lemma call_missing_key_witness :
  ∃ key, (key = "edge_threshold" ∨ key = "edge_encoding")
    ∧ cfg_no_threshold !! key = None
    ∧ build cfg_no_threshold line5 [512; 512]%Z = Raise (KeyError key).
Proof.
  apply (call_missing_key truthy sq_distance inverse_weight gt
           (__init__ cfg_no_threshold false false) line5 [512; 512]%Z).
  - reflexivity.
  - right. split; [reflexivity | simpl; lia].
Defined.

Lemma call_fewer_than_two_objects_witness :
  ∃ g, build cfg_no_threshold (take 1 line5) [512; 512]%Z = Ok g
    ∧ number_of_nodes g = length (take 1 line5)
    ∧ ndata g !! CENTROID = Some (Matrix (obj_centroid <$> take 1 line5))
    ∧ ndata g !! LABEL = Some (Vector (obj_label <$> take 1 line5))
    ∧ edges g = [].
Proof.
  apply (call_fewer_than_two_objects truthy sq_distance inverse_weight gt
           (__init__ cfg_no_threshold false false) (take 1 line5)
           [512; 512]%Z).
  - simpl. lia.
  - reflexivity.
  - eexists. reflexivity.
Defined.

Lemma call_twice_identical_witness :
  ∃ graph2 σ2 g,
    Stateful.__call__ truthy sq_distance inverse_weight gt
      [512; 512]%Z store5' = (Ok graph2, σ2)
    ∧ 0 ≠ graph2
    ∧ Stateful.graphs store5' !! 0 = Some g
    ∧ Stateful.graphs σ2 !! 0 = Some g
    ∧ Stateful.graphs σ2 !! graph2 = Some g
    ∧ Stateful.self_config σ2 = Stateful.self_config store5
    ∧ Stateful.self_cuda σ2 = Stateful.self_cuda store5
    ∧ Stateful.objects σ2 = Stateful.objects store5.
Proof.
  apply (call_twice_identical truthy sq_distance inverse_weight gt
           store5 [512; 512]%Z 0 store5').
  vm_compute. reflexivity.
Defined.

Lemma explain_runs_num_epochs_witness :
  (∃ e, toy_explain 3 5 = Ok e
      ∧ Z.of_nat (SingleInstanceExplainer.iterations e) = 3%Z)
  ∧ toy_explain 0 5 = Raise InvalidConfigError.
Proof.
  apply (explain_runs_num_epochs (mask := nat)
           (λ g, Some g) (λ _, 0) (λ _ g, g) (λ m _ _, S m) 3%Z 5).
  - intros g'. eexists. reflexivity.
  - lia.
Defined.

(** A feature row that is not zero but sums to zero: the node is dropped,
    and with it the edge of weight 0.9 > 0.5 that joins it to the other
    node; nothing is left of the graph. *)
Lemma nonzero_row_dropped :
  feats2 !! 0 = Some [1; -1]%Q
  ∧ ¬ (1 == 0)%Q
  ∧ RunExplainer.kept_nodes feats2 = [1]
  ∧ mask2 !! 0 ≫= (.!! 1) = Some (9 # 10)
  ∧ RunExplainer.exceeds (9 # 10) (1 # 2) = true
  ∧ RunExplainer.graph_edges
      (RunExplainer.postprocess mask2 feats2 (1 # 2) centroids2) = []
  ∧ RunExplainer.nodes
      (RunExplainer.postprocess mask2 feats2 (1 # 2) centroids2) = [].
Proof. repeat split; try reflexivity. by intros H. Qed.

Lemma postprocess_keeps_witness :
  (∀ i, i ∈ RunExplainer.kept_nodes feats3 ↔
     ∃ row, feats3 !! i = Some row
            ∧ ¬ (RunExplainer.row_sum row == 0)%Q)
  ∧ (∀ a b,
       (a, b) ∈ RunExplainer.graph_edges
                  (RunExplainer.postprocess mask3 feats3 (1 # 2)
                     centroids3) ↔
       ∃ i j row w,
         RunExplainer.kept_nodes feats3 !! a = Some i
         ∧ RunExplainer.kept_nodes feats3 !! b = Some j
         ∧ mask3 !! i = Some row ∧ row !! j = Some w ∧ (1 # 2 < w)%Q)
  ∧ (∀ a,
       a ∈ RunExplainer.nodes
             (RunExplainer.postprocess mask3 feats3 (1 # 2) centroids3) ↔
       ∃ b, (a, b) ∈ RunExplainer.graph_edges
                       (RunExplainer.postprocess mask3 feats3 (1 # 2)
                          centroids3)
            ∨ (b, a) ∈ RunExplainer.graph_edges
                         (RunExplainer.postprocess mask3 feats3 (1 # 2)
                            centroids3))
  ∧ RunExplainer.graph_edges
      (RunExplainer.postprocess mask3 feats3 (1 # 2) centroids3)
    = [(0, 1)]
  ∧ RunExplainer.nodes
      (RunExplainer.postprocess mask3 feats3 (1 # 2) centroids3)
    = [0; 1].
Proof.
  apply (postprocess_keeps mask3 feats3 (1 # 2) centroids3).
  - discriminate.
  - reflexivity.
  - repeat constructor.
Defined.

Lemma meta_data_schema_witness :
  ∃ adj feats orig_pred exp_pred explainer_config,
    Ok (mask3, feats3, [1 # 2; 1 # 2]%Q, [1 # 2; 1 # 2]%Q)
      = Ok (adj, feats, orig_pred, exp_pred)
    ∧ toy_config' !! "explainer" = Some (JObject explainer_config)
    ∧ dict_get "number_of_epochs" explainer_config
        = Ok (JInt (RunExplainer.epochs toy_args))
    ∧ dict_get "learning_rate" explainer_config
        = Ok (JFloat (RunExplainer.learning_rate toy_args))
    ∧ toy_meta_data = JObject
        [ ("config", JObject explainer_config);
          ("output", JObject
            [ ("original", JObject
                [ ("prediction", JString (toy_render orig_pred));
                  ("number_of_nodes",
                     JInt (Z.of_nat (number_of_nodes
                                       (RunExplainer.data0 toy_instance))));
                  ("number_of_edges",
                     JInt (Z.of_nat (number_of_edges
                                       (RunExplainer.data0 toy_instance))))
                ]);
              ("explanation", JObject
                [ ("number_of_nodes",
                     JInt (Z.of_nat (length (RunExplainer.nodes
                                               toy_explanation))));
                  ("number_of_edges",
                     JInt (Z.of_nat (length (RunExplainer.graph_edges
                                               toy_explanation))));
                  ("explanation_prediction",
                     JString (toy_render exp_pred)) ]) ]) ].
Proof.
  apply (meta_data_schema toy_render
           (λ (_ : RunExplainer.instance) (_ : nat),
              Ok (mask3, feats3, [1 # 2; 1 # 2]%Q, [1 # 2; 1 # 2]%Q))
           toy_config toy_args toy_instance 0
           toy_config' toy_explanation "slide_7_explanation.json"
           toy_meta_data).
  vm_compute. reflexivity.
Defined.

Lemma call_ignores_image_size_witness :
  build cfg line5 [512; 512]%Z = build cfg line5 [1024; 768]%Z
  ∧ edges graph5 = edges graph5_relabelled.
Proof.
  destruct (call_ignores_image_size truthy sq_distance inverse_weight gt
              builder line5 [512; 512]%Z [1024; 768]%Z) as [Hsame Hedges].
  split; [exact Hsame|].
  apply (Hedges (__init__ cfg_verbose true true) line5_relabelled
           graph5 graph5_relabelled);
    vm_compute; reflexivity.
Defined.

End Runs.

(** * Further properties of the graph builder *)

Section BuilderMore.

Import KNN.

Context {value distance weight : Type}.
Variable truthy : value → bool.
Variable compute_l2_distance : list Z → list Z → distance.
Variable compute_edge_weight : distance → weight.
Variable gt : weight → value → bool.

Abbreviation call' :=
  (__call__ truthy compute_l2_distance compute_edge_weight gt).
Abbreviation linked' :=
  (connected compute_l2_distance compute_edge_weight gt).
Abbreviation paired' :=
  (paired_edges compute_l2_distance compute_edge_weight gt).
Abbreviation topology_edges' :=
  (KNN.topology_edges compute_l2_distance compute_edge_weight gt).
Abbreviation built' :=
  (KNN.built compute_l2_distance compute_edge_weight gt).

Implicit Types (self : KNNGraphBuilder value) (objects : list object).
Implicit Types (g : DGLGraph) (centroid : list (list Z)).
Implicit Types (pairs : list (nat * nat)).

(** *** When the call returns, and how it fails *)

(** A graph is returned only if the tensor conversion accepted the
    objects, ['edge_encoding'] is in the configuration, and
    ['edge_threshold'] is there too unless there are fewer than two
    objects. *)
Theorem call_returns_only_if self objects image_size g :
  __call__ truthy compute_l2_distance compute_edge_weight gt
    self objects image_size = Ok g →
  tensorable objects = true
  ∧ is_Some (config self !! "edge_encoding")
  ∧ (is_Some (config self !! "edge_threshold") ∨ length objects < 2).
Proof.
  intros Hg. by apply (call_Ok_inv truthy) in Hg as (_ & ? & ? & ?).
Qed.

(** Failures come in the order of the code.  Objects that the tensor
    conversion refuses make the call raise the conversion error whatever
    the configuration holds; and with objects that it accepts, two of them
    at least, a configuration without ['edge_threshold'] makes the call
    raise [KeyError] for this key, whether ['edge_encoding'] is there or
    not. *)
Theorem call_error_precedence self objects image_size :
  tensorable objects = false
  ∨ (2 ≤ length objects ∧ config self !! "edge_threshold" = None) →
  __call__ truthy compute_l2_distance compute_edge_weight gt
    self objects image_size
  = Raise (if tensorable objects then KeyError "edge_threshold"
           else TensorError).
Proof.
  intros Hcase. rewrite call_eq.
  destruct (tensorable objects); [|done].
  destruct Hcase as [? | [Hn Hthr]]; [done|]. rewrite Hthr.
  destruct (combinations2 _) eqn:Hpairs; [|done].
  apply combinations2_range_nil in Hpairs. lia.
Qed.

(** *** The shape of the edge list *)

Lemma combinations2_seq_length (a n : nat) :
  2 * length (combinations2 (seq a n)) = n * (n - 1).
Proof.
  revert a. induction n as [|n IH]; intros a; [done|]. simpl.
  rewrite length_app, length_fmap, length_seq.
  specialize (IH (S a)). destruct n as [|n]; simpl in *; [done|]. nia.
Qed.

Lemma combinations2_seq_NoDup (a n : nat) : NoDup (combinations2 (seq a n)).
Proof.
  revert a. induction n as [|n IH]; intros a; simpl; [constructor|].
  apply NoDup_app. split; [|split; [|apply IH]].
  - apply NoDup_fmap_2; [by intros x y [= ->] | apply NoDup_seq].
  - intros [i j] Hin Hin'.
    apply list_elem_of_fmap in Hin as (y & [= -> ->] & _).
    apply elem_of_combinations2_seq in Hin'. lia.
Qed.

Lemma paired_mirrored threshold centroid pairs :
  paired' threshold centroid pairs =
    mirrored (filter (λ p, linked' threshold centroid p = true) pairs).
Proof. done. Qed.

Lemma mirrored_length l : length (mirrored l) = 2 * length l.
Proof.
  induction l as [|p l IH]; [done|].
  change (mirrored (p :: l)) with (p :: (p.2, p.1) :: mirrored l).
  simpl. rewrite IH. lia.
Qed.

Lemma mirrored_lookup l k :
  mirrored l !! (2 * k) = l !! k
  ∧ mirrored l !! (2 * k + 1) = (λ p, (p.2, p.1)) <$> l !! k.
Proof.
  revert k. induction l as [|p l IH]; intros k; [done|].
  destruct k as [|k]; [done|].
  replace (2 * S k) with (S (S (2 * k))) by lia.
  replace (S (S (2 * k)) + 1) with (S (S (2 * k + 1))) by lia.
  apply (IH k).
Qed.

Lemma elem_of_mirrored l q :
  q ∈ mirrored l ↔ q ∈ l ∨ (q.2, q.1) ∈ l.
Proof.
  unfold mirrored. rewrite list_elem_of_bind. destruct q as [i j]. split.
  - intros ([a b] & Hin & Hp). simpl in Hin.
    rewrite !elem_of_cons, elem_of_nil in Hin.
    destruct Hin as [[= -> ->] | [[= -> ->] | []]]; auto.
  - intros [Hp | Hp]; [exists (i, j) | exists (j, i)];
      (split; [set_solver | done]).
Qed.

Lemma mirrored_NoDup l :
  NoDup l → Forall (λ p, p.1 < p.2) l → NoDup (mirrored l).
Proof.
  intros Hnd Hlt. induction Hnd as [|p l Hp Hnd IH]; [constructor|].
  apply Forall_cons in Hlt as [Hp12 Hlt].
  change (mirrored (p :: l)) with (p :: (p.2, p.1) :: mirrored l).
  assert (Hnot : ∀ q, q ∈ mirrored l → q ≠ p ∧ q ≠ (p.2, p.1)).
  { intros q Hq. apply elem_of_mirrored in Hq as [Hq | Hq].
    - split; [by intros ->|]. intros ->.
      eapply Forall_forall in Hlt; [|exact Hq]. simpl in Hlt. lia.
    - split.
      + intros ->. eapply Forall_forall in Hlt; [|exact Hq].
        simpl in Hlt. lia.
      + intros ->. simpl in Hq. by destruct p. }
  constructor; [|constructor; [|by apply IH]].
  - rewrite elem_of_cons. intros [Heq | Hin].
    + destruct p as [i j]. injection Heq as -> _. simpl in Hp12. lia.
    + by destruct (Hnot _ Hin).
  - intros Hin. by destruct (Hnot _ Hin).
Qed.

Lemma range_pairs_increasing (n : nat) :
  Forall (λ p, p.1 < p.2) (combinations2 (range n)).
Proof.
  apply Forall_forall. intros [i j] Hij.
  apply elem_of_combinations2_range in Hij. simpl. lia.
Qed.

(** Every edge of a returned graph joins two of its nodes. *)
Theorem call_edges_in_range self objects image_size g i j :
  __call__ truthy compute_l2_distance compute_edge_weight gt
    self objects image_size = Ok g →
  (i, j) ∈ edges g →
  i < number_of_nodes g ∧ j < number_of_nodes g.
Proof.
  intros Hg Hij. apply (call_Ok_inv truthy) in Hg as (-> & _ & _ & _).
  rewrite edges_built in Hij. simpl.
  destruct (config self !! "edge_threshold") as [thr|] eqn:Hthr.
  - apply (elem_of_topology_edges truthy _ _ _ _ _ thr) in Hij; [|done].
    lia.
  - rewrite topology_edges_no_threshold in Hij by done.
    by apply elem_of_nil in Hij.
Qed.

(** No directed edge is added twice: a returned graph is a simple
    graph. *)
Theorem call_edges_NoDup self objects image_size g :
  __call__ truthy compute_l2_distance compute_edge_weight gt
    self objects image_size = Ok g →
  NoDup (edges g).
Proof.
  intros Hg. apply (call_Ok_inv truthy) in Hg as (-> & _ & _ & _).
  rewrite edges_built. unfold KNN.topology_edges.
  destruct (config self !! "edge_threshold") as [thr|]; [|constructor].
  rewrite paired_mirrored. apply mirrored_NoDup.
  - apply NoDup_filter, combinations2_seq_NoDup.
  - apply Forall_forall. intros p Hp.
    apply list_elem_of_filter in Hp as [_ Hp].
    by eapply Forall_forall in Hp; [|apply range_pairs_increasing].
Qed.

(** The number of directed edges is even and at most [n * (n - 1)]. *)
Theorem call_number_of_edges self objects image_size g :
  __call__ truthy compute_l2_distance compute_edge_weight gt
    self objects image_size = Ok g →
  Nat.Even (number_of_edges g)
  ∧ number_of_edges g ≤ length objects * (length objects - 1).
Proof.
  intros Hg. apply (call_Ok_inv truthy) in Hg as (-> & _ & _ & _).
  unfold number_of_edges. rewrite edges_built. unfold KNN.topology_edges.
  destruct (config self !! "edge_threshold") as [thr|];
    [|split; [by exists 0 | simpl; lia]].
  rewrite paired_mirrored, mirrored_length. split; [by eexists|].
  rewrite <- (combinations2_seq_length 0 (length objects)).
  apply Nat.mul_le_mono_l, length_filter.
Qed.

(** The edges come in adjacent couples: the edge at an even position
    [2 * k] goes from a smaller to a larger node, and the next edge is its
    reverse. *)
Theorem call_edges_coupled self objects image_size g k i j :
  __call__ truthy compute_l2_distance compute_edge_weight gt
    self objects image_size = Ok g →
  edges g !! (2 * k) = Some (i, j) →
  i < j ∧ edges g !! (2 * k + 1) = Some (j, i).
Proof.
  intros Hg. apply (call_Ok_inv truthy) in Hg as (-> & _ & _ & _).
  rewrite edges_built. unfold KNN.topology_edges.
  destruct (config self !! "edge_threshold") as [thr|]; [|done].
  rewrite paired_mirrored.
  destruct (mirrored_lookup
              (filter (λ p, linked' thr (obj_centroid <$> objects) p = true)
                 (combinations2 (range (length objects)))) k) as [-> ->].
  intros Hk. rewrite Hk. split; [|done].
  apply list_elem_of_lookup_2, list_elem_of_filter in Hk as [_ Hk].
  apply elem_of_combinations2_range in Hk. lia.
Qed.

(** *** What the result does not depend on *)

(** The value stored under ['edge_encoding'] makes no difference: the key
    has to be there, but [_set_edge_embeddings] attaches nothing, so any
    value gives the result of any other one. *)
Theorem call_edge_encoding_value self v objects image_size :
  is_Some (config self !! "edge_encoding") →
  __call__ truthy compute_l2_distance compute_edge_weight gt
    (mkBuilder (<["edge_encoding" := v]> (config self)) (cuda self))
    objects image_size
  = __call__ truthy compute_l2_distance compute_edge_weight gt
      self objects image_size.
Proof.
  intros [v' Hv']. rewrite !call_eq. unfold KNN.built, KNN.topology_edges.
  simpl. rewrite lookup_insert_eq, lookup_insert_ne, Hv' by done. done.
Qed.

(** A returned graph carries the two node attributes ['centroid'] and
    ['label'] and no other one. *)
Theorem call_ndata_keys self objects image_size g key :
  __call__ truthy compute_l2_distance compute_edge_weight gt
    self objects image_size = Ok g →
  is_Some (ndata g !! key) ↔ key = CENTROID ∨ key = LABEL.
Proof.
  intros Hg. apply (call_Ok_inv truthy) in Hg as (-> & _ & _ & _).
  unfold KNN.built, with_features, add_edges, set_ndata, add_nodes. simpl.
  rewrite !lookup_insert. repeat case_decide; subst.
  - split; [auto | by eexists].
  - split; [auto | by eexists].
  - rewrite lookup_empty. split; [by intros [? ?] | by intros [-> | ->]].
Qed.

(** *** Locality *)

(** The edges among the first [k] objects do not depend on the objects
    that follow: building from the first [k] objects gives the edges of
    the full graph that join two of the first [k] nodes. *)
Theorem call_take_edges self objects image_size g g' k i j :
  __call__ truthy compute_l2_distance compute_edge_weight gt
    self objects image_size = Ok g →
  __call__ truthy compute_l2_distance compute_edge_weight gt
    self (take k objects) image_size = Ok g' →
  (i, j) ∈ edges g' ↔ (i, j) ∈ edges g ∧ i < k ∧ j < k.
Proof.
  intros Hg Hg'.
  apply (call_Ok_inv truthy) in Hg as (-> & _ & _ & _).
  apply (call_Ok_inv truthy) in Hg' as (-> & _ & _ & _).
  rewrite !edges_built.
  destruct (config self !! "edge_threshold") as [thr|] eqn:Hthr.
  - rewrite !(elem_of_topology_edges truthy _ _ _ _ _ thr) by done.
    rewrite length_take. unfold connected. simpl. rewrite fmap_take.
    split.
    + intros (Hne & Hi & Hj & Hc).
      rewrite !lookup_take_lt in Hc by lia.
      repeat split; [done|lia..|done|lia|lia].
    + intros ((Hne & Hi & Hj & Hc) & Hik & Hjk).
      rewrite !lookup_take_lt by lia. repeat split; [done|lia..|done].
  - rewrite !topology_edges_no_threshold by done.
    rewrite elem_of_nil. by split; [|intros [? _]].
Qed.

(** *** A symmetric distance *)

(** With a distance that does not depend on the order of its arguments,
    as the Euclidean one, a directed edge [(i, j)] between distinct nodes
    is present iff the weight of the distance of the centroids of [i] and
    [j], taken in this order, exceeds the threshold. *)
Theorem call_edge_iff_symmetric self objects image_size g threshold
    i j ci cj :
  (∀ a b, compute_l2_distance a b = compute_l2_distance b a) →
  __call__ truthy compute_l2_distance compute_edge_weight gt
    self objects image_size = Ok g →
  config self !! "edge_threshold" = Some threshold →
  i ≠ j →
  (obj_centroid <$> objects) !! i = Some ci →
  (obj_centroid <$> objects) !! j = Some cj →
  (i, j) ∈ edges g ↔
    gt (compute_edge_weight (compute_l2_distance ci cj)) threshold = true.
Proof.
  intros Hsym Hg Hthr Hne Hci Hcj.
  apply (call_Ok_inv truthy) in Hg as (-> & _ & _ & _). rewrite edges_built.
  rewrite (elem_of_topology_edges truthy _ _ _ _ _ threshold) by done.
  unfold connected. simpl.
  assert (Hi : i < length objects)
    by (apply lookup_lt_Some in Hci; by rewrite length_fmap in Hci).
  assert (Hj : j < length objects)
    by (apply lookup_lt_Some in Hcj; by rewrite length_fmap in Hcj).
  destruct (decide (i < j)) as [Hlt|Hge].
  - rewrite Nat.min_l, Nat.max_r, Hci, Hcj by lia.
    split; [by intros (_ & _ & _ & ?) | auto].
  - rewrite Nat.min_r, Nat.max_l, Hci, Hcj, (Hsym cj ci) by lia.
    split; [by intros (_ & _ & _ & ?) | auto].
Qed.

End BuilderMore.

(** * Further properties of the explanation script *)

(** ** The selection of the nodes *)

Section SelectionMore.

Import RunExplainer.

Lemma postprocess_select_nodes adj feats threshold centroids :
  postprocess adj feats threshold centroids =
    adj_to_networkx (select_nodes adj feats centroids).1.1
      (select_nodes adj feats centroids).1.2 threshold
      (select_nodes adj feats centroids).2.
Proof. done. Qed.

(** Reading a selected list at a position is reading the original list at
    the node kept at this position. *)
Lemma kept_nodes_lookup_eq {A : Type} (feats : matrix) (l : list A) a :
  length l = length feats →
  mask_select (nonzero_sum_rows feats) l !! a
    = kept_nodes feats !! a ≫= (l !!.).
Proof.
  intros Hlen.
  destruct (mask_select (nonzero_sum_rows feats) l !! a) as [x|] eqn:Hx.
  - apply kept_nodes_lookup in Hx as (i & -> & Hi); done.
  - destruct (kept_nodes feats !! a) as [i|] eqn:Hi; [|done]. simpl.
    destruct (l !! i) as [x|] eqn:Hli; [|done].
    assert (Hsome : mask_select (nonzero_sum_rows feats) l !! a = Some x)
      by (apply kept_nodes_lookup; eauto).
    congruence.
Qed.

Lemma kept_nodes_lt (feats : matrix) (i : nat) :
  i ∈ kept_nodes feats → i < length feats.
Proof.
  intros Hi. apply elem_of_kept_nodes in Hi as (row & Hrow & _).
  by apply lookup_lt_Some in Hrow.
Qed.

Lemma mask_select_seq_increasing (mask : list bool) (s n a b i j : nat) :
  mask_select mask (seq s n) !! a = Some i →
  mask_select mask (seq s n) !! b = Some j →
  a < b → i < j.
Proof.
  revert s n a b. induction mask as [|m mask IH]; intros s n a b; [done|].
  destruct n as [|n]; [done|]. simpl. destruct m; [|apply IH].
  destruct a as [|a], b as [|b]; simpl; try lia.
  - intros [= <-] Hj _.
    apply list_elem_of_lookup_2, elem_of_mask_select, elem_of_seq in Hj. lia.
  - intros Hi Hj Hab. apply (IH (S s) n a b Hi Hj). lia.
Qed.

Lemma mask_select_fmap_Forall {A : Type} (f : A → bool) (l : list A) :
  Forall (λ x, f x = true) (mask_select (f <$> l) l).
Proof.
  induction l as [|x l IH]; simpl; [constructor|].
  destruct (f x) eqn:Hx; [by constructor | done].
Qed.


(** The kept nodes are listed in increasing order: the renumbering keeps
    the order of the nodes. *)
Theorem kept_nodes_increasing (feats : matrix) (a b i j : nat) :
  kept_nodes feats !! a = Some i →
  kept_nodes feats !! b = Some j →
  a < b → i < j.
Proof. apply mask_select_seq_increasing. Qed.

(** After the selection the three tensors are aligned again: row [a] of
    the features and of the centroids is the row of the node kept at
    position [a], and the cell [(a, b)] of the adjacency is the cell of
    the nodes kept at positions [a] and [b]. *)
Theorem select_nodes_aligned adj feats centroids a b :
  length feats ≠ 1 →
  length adj = length feats →
  Forall (λ row, length row = length feats) adj →
  length centroids = length feats →
  (select_nodes adj feats centroids).1.2 !! a
    = kept_nodes feats !! a ≫= (feats !!.)
  ∧ (select_nodes adj feats centroids).2 !! a
    = kept_nodes feats !! a ≫= (centroids !!.)
  ∧ ((select_nodes adj feats centroids).1.1 !! a ≫= (.!! b))
    = kept_nodes feats !! a ≫= λ i,
        kept_nodes feats !! b ≫= λ j, adj !! i ≫= (.!! j).
Proof.
  intros _ Hadj Hrows Hcs. unfold select_nodes, select_rows, select_columns.
  simpl. split; [by apply kept_nodes_lookup_eq|].
  split; [by apply kept_nodes_lookup_eq|].
  rewrite list_lookup_fmap, kept_nodes_lookup_eq by done.
  destruct (kept_nodes feats !! a) as [i|] eqn:Hi; [|done]. simpl.
  destruct (adj !! i) as [row|] eqn:Hrow; simpl.
  - assert (Hlen : length row = length feats)
      by (eapply Forall_lookup_1 in Hrows; eauto).
    rewrite kept_nodes_lookup_eq by done.
    by destruct (kept_nodes feats !! b).
  - by destruct (kept_nodes feats !! b).
Qed.

Lemma selected_shape adj feats centroids :
  length adj = length feats →
  Forall (λ row, length row = length feats) adj →
  length centroids = length feats →
  length (select_nodes adj feats centroids).1.1 = length (kept_nodes feats)
  ∧ Forall (λ row, length row = length (kept_nodes feats))
      (select_nodes adj feats centroids).1.1
  ∧ length (select_nodes adj feats centroids).1.2
    = length (kept_nodes feats)
  ∧ length (select_nodes adj feats centroids).2 = length (kept_nodes feats).
Proof.
  intros Hadj Hrows Hcs. unfold select_nodes, select_rows, select_columns.
  simpl. unfold kept_nodes, range.
  assert (Hsel : ∀ {A} (l : list A), length l = length feats →
            length (mask_select (nonzero_sum_rows feats) l)
            = length (mask_select (nonzero_sum_rows feats)
                        (seq 0 (length feats)))).
  { intros A l Hl. apply mask_select_length;
      rewrite length_nonzero_sum_rows; [done | by rewrite length_seq]. }
  split; [by rewrite length_fmap, Hsel|].
  split; [|split; by apply Hsel].
  apply Forall_fmap, Forall_forall. intros row Hrow. simpl.
  apply Hsel. apply elem_of_mask_select in Hrow.
  by eapply Forall_forall in Hrows.
Qed.

(** The selection leaves a square adjacency, with as many rows of features
    and centroids as there are kept nodes. *)
Theorem select_nodes_shape adj feats centroids :
  length feats ≠ 1 →
  length adj = length feats →
  Forall (λ row, length row = length feats) adj →
  length centroids = length feats →
  length (select_nodes adj feats centroids).1.1 = length (kept_nodes feats)
  ∧ Forall (λ row, length row = length (kept_nodes feats))
      (select_nodes adj feats centroids).1.1
  ∧ length (select_nodes adj feats centroids).1.2
    = length (kept_nodes feats)
  ∧ length (select_nodes adj feats centroids).2 = length (kept_nodes feats).
Proof. intros _. apply selected_shape. Qed.

Lemma selected_rows_nonzero adj feats centroids :
  Forall (λ row, ¬ (row_sum row == 0)%Q)
    (select_nodes adj feats centroids).1.2.
Proof.
  unfold select_nodes, select_rows, nonzero_sum_rows. simpl.
  eapply Forall_impl; [apply mask_select_fmap_Forall|].
  intros row Hrow Heq. simpl in Hrow.
  apply negb_true_iff in Hrow. apply Qeq_bool_iff in Heq. congruence.
Qed.

(** Every feature row that is handed on has a sum that is not zero. *)
Theorem select_nodes_rows_nonzero adj feats centroids :
  length feats ≠ 1 →
  Forall (λ row, ¬ (row_sum row == 0)%Q)
    (select_nodes adj feats centroids).1.2.
Proof. intros _. apply selected_rows_nonzero. Qed.


Lemma row_sum_nonneg (row : list Q) :
  Forall (λ x, 0 <= x)%Q row → (0 <= row_sum row)%Q.
Proof.
  induction 1 as [|x row Hx _ IH]; simpl; [apply Qle_refl|].
  unfold row_sum in *. simpl. lra.
Qed.

Lemma row_sum_zero_iff (row : list Q) :
  Forall (λ x, 0 <= x)%Q row →
  (row_sum row == 0)%Q ↔ Forall (λ x, x == 0)%Q row.
Proof.
  induction 1 as [|x row Hx Hrow IH]; [by split|].
  pose proof (row_sum_nonneg row Hrow) as Hs.
  rewrite Forall_cons, <- IH. unfold row_sum in *. simpl. split.
  - intros Heq. split; lra.
  - intros [Hx0 Hs0]. lra.
Qed.

Lemma not_all_zero_Exists (row : list Q) :
  ¬ Forall (λ x, x == 0)%Q row → Exists (λ x, ¬ (x == 0)%Q) row.
Proof.
  induction row as [|x row IH]; intros Hnot; [by destruct Hnot|].
  destruct (Qeq_dec x 0) as [Hx|Hx]; [|by left].
  right. apply IH. intros Hall. apply Hnot. by constructor.
Qed.

(** For features without negative entries the test on the sum is the test
    on the row: a node is kept iff one of its features is not zero. *)
Theorem kept_nodes_nonnegative (feats : matrix) (i : nat) :
  Forall (Forall (λ x, 0 <= x)%Q) feats →
  i ∈ kept_nodes feats ↔
    ∃ row, feats !! i = Some row ∧ Exists (λ x, ¬ (x == 0)%Q) row.
Proof.
  intros Hnn. rewrite elem_of_kept_nodes. split.
  - intros (row & Hrow & Hsum). exists row. split; [done|].
    apply not_all_zero_Exists.
    intros Hall. apply Hsum, row_sum_zero_iff; [|done].
    by eapply Forall_lookup_1 in Hnn.
  - intros (row & Hrow & Hex). exists row. split; [done|].
    intros Hsum. apply row_sum_zero_iff in Hsum;
      [|by eapply Forall_lookup_1 in Hnn].
    apply Exists_exists in Hex as (x & Hx & Hne).
    by eapply Forall_forall in Hsum.
Qed.

End SelectionMore.

(** ** The loop over the instances *)

Section LoopMore.

Import RunExplainer.

Lemma dict_set_id k v d : dict_get k d = Ok v → dict_set k v d = d.
Proof.
  induction d as [|[k' v'] d IH]; simpl; [done|].
  destruct (String.eqb_spec k k') as [->|Hne].
  - by intros [= ->].
  - intros Hget. by rewrite IH.
Qed.

Lemma recorded_get_other args d k :
  k ≠ "number_of_epochs" → k ≠ "learning_rate" →
  dict_get k (recorded args d) = dict_get k d.
Proof.
  intros Hne Hlr. unfold recorded. by rewrite !dict_get_set_ne.
Qed.

Lemma recorded_idempotent args d :
  recorded args (recorded args d) = recorded args d.
Proof.
  unfold recorded at 1.
  rewrite (dict_set_id "number_of_epochs").
  - apply dict_set_id. unfold recorded. apply dict_get_set_eq.
  - unfold recorded. rewrite dict_get_set_ne by done.
    apply dict_get_set_eq.
Qed.

Context (render : list Q → string) {label : Type}.
Variable explain :
  instance → label → result (matrix * matrix * list Q * list Q).

(** What a completed iteration has read and what it leaves. *)
Lemma explain_instance_inv config args data lbl config' g file meta :
  explain_instance render explain config args data lbl
    = Ok (config', g, (file, meta)) →
  ∃ adj feats orig_pred exp_pred rows d t threshold name,
    explain data lbl = Ok (adj, feats, orig_pred, exp_pred)
    ∧ ndata (data0 data) !! "centroid" = Some (Matrix rows)
    ∧ config !! "explainer" = Some (JObject d)
    ∧ dict_get "adj_thresh" d = Ok t
    ∧ as_number t = Ok threshold
    ∧ data2 data !! 0 = Some name
    ∧ g = postprocess adj feats threshold rows
    ∧ config' = <["explainer" := JObject (recorded args d)]> config
    ∧ file = meta_data_file name
    ∧ meta = JObject (make_meta_data render (recorded args d) orig_pred
                        exp_pred (data0 data) g).
Proof.
  unfold explain_instance. intros H.
  apply bind_Ok_inv in H as ([[[adj feats] orig_pred] exp_pred] & He & H).
  apply bind_Ok_inv in H as (c & Hc & H).
  apply subscript_Ok in Hc.
  apply bind_Ok_inv in H as (rows & Hrows & H).
  destruct c as [|rows']; [done|]. injection Hrows as ->.
  apply bind_Ok_inv in H as (v & Hv & H). apply subscript_Ok in Hv.
  apply bind_Ok_inv in H as (d & Hd & H).
  destruct v as [|?|?|?|?|d0]; try done. injection Hd as ->.
  apply bind_Ok_inv in H as (t & Ht & H).
  apply bind_Ok_inv in H as (threshold & Hthr & H).
  apply bind_Ok_inv in H as (name & Hname & H).
  unfold getitem in Hname.
  destruct (data2 data !! 0) as [name'|] eqn:Hn; [|done].
  injection Hname as ->.
  simpl in H. injection H as <- <- <- <-.
  exists adj, feats, orig_pred, exp_pred, rows, d, t, threshold, name.
  done.
Qed.

(** A completed iteration changes the configuration at ['explainer']
    only, and there it sets ['number_of_epochs'] and ['learning_rate'] and
    nothing else: ['adj_thresh'] in particular is as it was. *)
Theorem explain_instance_config config args data lbl config' g file meta :
  explain_instance render explain config args data lbl
    = Ok (config', g, (file, meta)) →
  (∀ key, key ≠ "explainer" → config' !! key = config !! key)
  ∧ ∃ d d',
      config !! "explainer" = Some (JObject d)
      ∧ config' !! "explainer" = Some (JObject d')
      ∧ dict_get "adj_thresh" d' = dict_get "adj_thresh" d
      ∧ ∀ key, key ≠ "number_of_epochs" → key ≠ "learning_rate" →
          dict_get key d' = dict_get key d.
Proof.
  intros H. apply explain_instance_inv in H
    as (adj & feats & op & ep & rows & d & t & thr & name
        & _ & _ & Hd & _ & _ & _ & _ & -> & _ & _).
  split; [intros key Hkey; by rewrite lookup_insert_ne|].
  exists d, (recorded args d). split; [done|].
  split; [apply lookup_insert_eq|].
  split; [by apply recorded_get_other|]. apply recorded_get_other.
Qed.

(** The configuration settles after one iteration: a second iteration with
    the same arguments leaves it as the first one did. *)
Theorem explain_instance_config_stable config args data lbl data' lbl'
    config' g file meta config'' g' file' meta' :
  explain_instance render explain config args data lbl
    = Ok (config', g, (file, meta)) →
  explain_instance render explain config' args data' lbl'
    = Ok (config'', g', (file', meta')) →
  config'' = config'.
Proof.
  intros H H'.
  apply explain_instance_inv in H
    as (adj & feats & op & ep & rows & d & t & thr & name
        & _ & _ & Hd & _ & _ & _ & _ & -> & _ & _).
  apply explain_instance_inv in H'
    as (adj' & feats' & op' & ep' & rows' & d' & t' & thr' & name'
        & _ & _ & Hd' & _ & _ & _ & _ & -> & _ & _).
  rewrite lookup_insert_eq in Hd'. injection Hd' as <-.
  by rewrite recorded_idempotent, insert_insert_eq.
Qed.

Lemma explain_all_written_from config args loader written log r :
  explain_all render explain config args loader written = (log, r) →
  ∃ new, log = written ++ new
    ∧ Some <$> new.*1
      = (λ dl, instance_file dl.1) <$> take (length new) loader
    ∧ match r with
      | Ok _ => length new = length loader
      | Raise _ => length new < length loader
      end.
Proof.
  revert config written.
  induction loader as [|[data lbl] loader IH]; intros config written; simpl.
  - intros [= <- <-]. exists []. by rewrite app_nil_r.
  - destruct (explain_instance render explain config args data lbl)
      as [[[config' g] [file meta]]|e] eqn:Hi.
    + intros H. apply IH in H as (new & -> & Hnames & Hr).
      exists ((file, meta) :: new). rewrite <- app_assoc. split; [done|].
      apply explain_instance_inv in Hi
        as (adj & feats & op & ep & rows & d & t & thr & name
            & _ & _ & _ & _ & _ & Hname & _ & _ & -> & _).
      split.
      * change (take (length ((meta_data_file name, meta) :: new))
                  ((data, lbl) :: loader))
          with ((data, lbl) :: take (length new) loader).
        rewrite !fmap_cons, Hnames. f_equal.
        unfold instance_file. simpl. by rewrite Hname.
      * destruct r; simpl; lia.
    + intros [= <- <-]. exists []. rewrite app_nil_r. simpl.
      split; [done|]. split; [done|lia].
Qed.

(** The loop writes one file per instance, in the order of the loader,
    each named after the first name of its instance with [_explanation]
    appended.  If an iteration raises, the files of the instances before
    it have been written and stay. *)
Theorem explain_all_written config args loader log r :
  explain_all render explain config args loader [] = (log, r) →
  Some <$> log.*1
    = (λ dl, instance_file dl.1) <$> take (length log) loader
  ∧ match r with
    | Ok _ => length log = length loader
    | Raise _ => length log < length loader
    end.
Proof.
  intros H. by apply explain_all_written_from in H as (new & -> & ? & ?).
Qed.

Lemma meta_data_config cfg orig_pred exp_pred cell_graph g :
  dict_get "config" (make_meta_data render cfg orig_pred exp_pred cell_graph g)
    = Ok (JObject cfg).
Proof. done. Qed.

Lemma explain_all_settled config args loader written log r d :
  config !! "explainer" = Some (JObject d) →
  recorded args d = d →
  explain_all render explain config args loader written = (log, r) →
  (∀ config', r = Ok config' → config' = config)
  ∧ ∃ new, log = written ++ new
      ∧ Forall (λ f, ∃ m, f.2 = JObject m
                     ∧ dict_get "config" m = Ok (JObject d)) new.
Proof.
  intros Hd Hfix. revert written.
  induction loader as [|[data lbl] loader IH]; intros written; simpl.
  - intros [= <- <-]. split; [by intros ? [= <-]|].
    exists []. by rewrite app_nil_r.
  - destruct (explain_instance render explain config args data lbl)
      as [[[config' g] [file meta]]|e] eqn:Hi.
    + apply explain_instance_inv in Hi
        as (adj & feats & op & ep & rows & d' & t & thr & name
            & _ & _ & Hd' & _ & _ & _ & _ & -> & _ & ->).
      rewrite Hd in Hd'. injection Hd' as <-.
      rewrite Hfix, insert_id by done.
      intros H. apply IH in H as (Hcfg & new & -> & Hnew).
      split; [done|].
      exists ((file, JObject (make_meta_data render d op ep (data0 data) g))
                :: new).
      rewrite <- app_assoc. split; [done|]. constructor; [|done].
      eexists. split; [done|]. apply meta_data_config.
    + intros [= <- <-]. split; [done|]. exists []. by rewrite app_nil_r.
Qed.

(** Whatever the number of instances, the loop leaves the configuration
    that its first iteration leaves, and every file it writes reports the
    same ['config']: the explainer's configuration with the number of
    epochs and the learning rate of the command line. *)
Theorem explain_all_config config args loader log r d :
  config !! "explainer" = Some (JObject d) →
  explain_all render explain config args loader [] = (log, r) →
  Forall (λ f, ∃ m, f.2 = JObject m
                 ∧ dict_get "config" m = Ok (JObject (recorded args d))) log
  ∧ ∀ config', r = Ok config' → loader ≠ [] →
      config' = <["explainer" := JObject (recorded args d)]> config.
Proof.
  intros Hd. destruct loader as [|[data lbl] loader]; simpl.
  - intros [= <- <-]. split; [constructor | by intros ? _ ?].
  - destruct (explain_instance render explain config args data lbl)
      as [[[config' g] [file meta]]|e] eqn:Hi.
    + apply explain_instance_inv in Hi
        as (adj & feats & op & ep & rows & d' & t & thr & name
            & _ & _ & Hd' & _ & _ & _ & _ & -> & _ & ->).
      rewrite Hd in Hd'. injection Hd' as <-.
      intros H.
      apply (explain_all_settled _ _ _ _ _ _ (recorded args d)) in H
        as (Hcfg & new & -> & Hnew);
        [|apply lookup_insert_eq | apply recorded_idempotent].
      split; [|by intros config' ->%Hcfg _].
      constructor; [|done]. eexists. split; [done|].
      apply meta_data_config.
    + intros [= <- <-]. split; [constructor | done].
Qed.

End LoopMore.

(** ** The expression built for a parameter name *)

Section PathMore.

Import RunExplainer.

Lemma append_assoc (a b c : string) : (a +:+ b) +:+ c = a +:+ (b +:+ c).
Proof.
  induction a as [|x a IH]; [done|].
  change (String x ((a +:+ b) +:+ c) = String x (a +:+ (b +:+ c))).
  by f_equal.
Qed.

Lemma append_nil_r (a : string) : a +:+ "" = a.
Proof.
  induction a as [|x a IH]; [done|].
  change (String x (a +:+ "") = String x a). by f_equal.
Qed.

Lemma split_nonempty (sep : ascii) (s : string) : split sep s ≠ [].
Proof.
  destruct s as [|c s]; simpl; [done|].
  destruct (Ascii.eqb c sep); [done|]. by destruct (split sep s).
Qed.

(** Joining the pieces of a string with the separator gives the string
    back. *)
Lemma concat_split (sep : ascii) (s : string) :
  String.concat (String sep "") (split sep s) = s.
Proof.
  induction s as [|c s IH]; [done|]. simpl.
  destruct (Ascii.eqb_spec c sep) as [->|Hne].
  - pose proof (split_nonempty sep s) as Hs.
    destruct (split sep s) as [|piece pieces]; [done|].
    simpl in *. by rewrite IH.
  - pose proof (split_nonempty sep s) as Hs.
    destruct (split sep s) as [|piece pieces]; [done|].
    destruct pieces as [|q pieces]; simpl in *; by rewrite <- IH.
Qed.

Lemma split_no_sep (sep : ascii) (s : string) :
  occurs sep s = false → split sep s = [s].
Proof.
  induction s as [|c s IH]; [done|]. simpl.
  intros [Hc Hs]%orb_false_elim. rewrite Hc, (IH Hs). done.
Qed.

Lemma split_append (sep : ascii) (p rest : string) :
  occurs sep p = false →
  split sep (p +:+ String sep rest) = p :: split sep rest.
Proof.
  induction p as [|c p IH]; simpl.
  - intros _. by rewrite Ascii.eqb_refl.
  - intros [Hc Hp]%orb_false_elim. by rewrite Hc, (IH Hp).
Qed.

(** Splitting what was joined gives the pieces back, if none of them
    holds the separator. *)
Lemma split_concat (sep : ascii) (parts : list string) :
  parts ≠ [] →
  Forall (λ p, occurs sep p = false) parts →
  split sep (String.concat (String sep "") parts) = parts.
Proof.
  intros Hne Hparts. induction Hparts as [|p parts Hp Hparts IH]; [done|].
  destruct parts as [|q parts]; [by apply split_no_sep|].
  change (String.concat (String sep "") (p :: q :: parts))
    with (p +:+ String sep (String.concat (String sep "") (q :: parts))).
  rewrite split_append by done. by rewrite IH.
Qed.

Variable int_accepts : string → bool.

Lemma to_eval_fold (acc : string) (parts : list string) :
  foldl (to_eval_step int_accepts) acc parts
    = acc +:+ foldr String.append "" (accessor int_accepts <$> parts).
Proof.
  revert acc. induction parts as [|s parts IH]; intros acc; simpl.
  - by rewrite append_nil_r.
  - rewrite IH. unfold to_eval_step, accessor.
    destruct (is_int int_accepts s); by rewrite !append_assoc.
Qed.

(** For a name made of components joined by dots, the expression is
    [model] followed by one accessor per component: [[s]] for a component
    that [int] accepts and [.s] for any other one. *)
Theorem to_eval_components (parts : list string) :
  parts ≠ [] →
  Forall (λ p, occurs "." p = false) parts →
  to_eval int_accepts (String.concat "." parts)
    = "model" +:+ foldr String.append "" (accessor int_accepts <$> parts).
Proof.
  intros Hne Hparts. unfold to_eval.
  rewrite (split_concat "." parts Hne Hparts). apply to_eval_fold.
Qed.

Lemma accessors_no_int (parts : list string) :
  parts ≠ [] →
  Forall (λ s, is_int int_accepts s = false) parts →
  foldr String.append "" (accessor int_accepts <$> parts)
    = "." +:+ String.concat "." parts.
Proof.
  intros Hne Hparts. induction Hparts as [|s parts Hs Hparts IH]; [done|].
  change (foldr String.append "" (accessor int_accepts <$> s :: parts))
    with (accessor int_accepts s
          +:+ foldr String.append "" (accessor int_accepts <$> parts)).
  unfold accessor at 1. rewrite Hs.
  destruct parts as [|q parts]; [apply append_nil_r|].
  rewrite IH by done.
  change (String.concat "." (s :: q :: parts))
    with (s +:+ "." +:+ String.concat "." (q :: parts)).
  by rewrite append_assoc.
Qed.

(** For a name without a component that [int] accepts, the expression is
    the name itself after [model.]: the assignment goes to the attribute
    path of the same name. *)
Theorem to_eval_no_int (n : string) :
  Forall (λ s, is_int int_accepts s = false) (split "." n) →
  to_eval int_accepts n = "model." +:+ n.
Proof.
  intros Hparts. unfold to_eval. rewrite to_eval_fold.
  rewrite accessors_no_int by (apply split_nonempty || done).
  by rewrite concat_split.
Qed.

End PathMore.

(** ** More concrete runs *)

Section MoreRuns.

Import KNN Demo RunExplainer.

Lemma sq_distance_sym (a b : list Z) : sq_distance a b = sq_distance b a.
Proof.
  unfold sq_distance. revert b.
  induction a as [|x a IH]; intros [|y b]; simpl; try done.
  rewrite IH. f_equal. ring.
Qed.

Lemma call_returns_only_if_witness :
  tensorable line5 = true
  ∧ is_Some (config builder !! "edge_encoding")
  ∧ (is_Some (config builder !! "edge_threshold") ∨ length line5 < 2).
Proof.
  apply (call_returns_only_if truthy sq_distance inverse_weight gt
           builder line5 [512; 512]%Z graph5).
  vm_compute. reflexivity.
Defined.

Lemma call_error_precedence_witness :
  build ∅ [far_object; far_object] [512; 512]%Z
  = Raise (if tensorable [far_object; far_object]
           then KeyError "edge_threshold" else TensorError).
Proof.
  apply (call_error_precedence truthy sq_distance inverse_weight gt
           (__init__ ∅ false false) [far_object; far_object]
           [512; 512]%Z).
  left. reflexivity.
Defined.

Lemma call_edges_in_range_witness :
  0 < number_of_nodes graph5 ∧ 1 < number_of_nodes graph5.
Proof.
  apply (call_edges_in_range truthy sq_distance inverse_weight gt
           builder line5 [512; 512]%Z graph5 0 1).
  - vm_compute. reflexivity.
  - vm_compute. constructor.
Defined.

Lemma call_edges_NoDup_witness : NoDup (edges graph5).
Proof.
  apply (call_edges_NoDup truthy sq_distance inverse_weight gt
           builder line5 [512; 512]%Z graph5).
  vm_compute. reflexivity.
Defined.

Lemma call_number_of_edges_witness :
  Nat.Even (number_of_edges graph5)
  ∧ number_of_edges graph5 ≤ length line5 * (length line5 - 1).
Proof.
  apply (call_number_of_edges truthy sq_distance inverse_weight gt
           builder line5 [512; 512]%Z graph5).
  vm_compute. reflexivity.
Defined.

Lemma call_edges_coupled_witness :
  2 < 3 ∧ edges graph5 !! (2 * 2 + 1) = Some (3, 2).
Proof.
  apply (call_edges_coupled truthy sq_distance inverse_weight gt
           builder line5 [512; 512]%Z graph5 2 2 3).
  - vm_compute. reflexivity.
  - reflexivity.
Defined.

Lemma call_edge_encoding_value_witness :
  __call__ truthy sq_distance inverse_weight gt
    (mkBuilder (<["edge_encoding" := PyBool true]> (config builder))
       (cuda builder))
    line5 [512; 512]%Z
  = __call__ truthy sq_distance inverse_weight gt builder line5
      [512; 512]%Z.
Proof.
  apply (call_edge_encoding_value truthy sq_distance inverse_weight gt
           builder (PyBool true) line5 [512; 512]%Z).
  eexists. reflexivity.
Defined.

Lemma call_ndata_keys_witness :
  is_Some (ndata graph5 !! "visual")
  ↔ "visual" = CENTROID ∨ "visual" = LABEL.
Proof.
  apply (call_ndata_keys truthy sq_distance inverse_weight gt
           builder line5 [512; 512]%Z graph5 "visual").
  vm_compute. reflexivity.
Defined.

Lemma call_take_edges_witness :
  (1, 2) ∈ edges (built sq_distance inverse_weight gt builder (take 3 line5))
  ↔ (1, 2) ∈ edges graph5 ∧ 1 < 3 ∧ 2 < 3.
Proof.
  apply (call_take_edges truthy sq_distance inverse_weight gt
           builder line5 [512; 512]%Z graph5
           (built sq_distance inverse_weight gt builder (take 3 line5))
           3 1 2).
  - vm_compute. reflexivity.
  - vm_compute. reflexivity.
Defined.

Lemma call_edge_iff_symmetric_witness :
  (3, 1) ∈ edges graph5 ↔
    gt (inverse_weight (sq_distance [3; 0]%Z [1; 0]%Z)) (PyFloat (1 # 4))
      = true.
Proof.
  apply (call_edge_iff_symmetric truthy sq_distance inverse_weight gt
           builder line5 [512; 512]%Z graph5 (PyFloat (1 # 4)) 3 1
           [3; 0]%Z [1; 0]%Z).
  - exact sq_distance_sym.
  - vm_compute. reflexivity.
  - reflexivity.
  - lia.
  - reflexivity.
  - reflexivity.
Defined.

Lemma kept_nodes_increasing_witness : 0 < 2.
Proof.
  apply (kept_nodes_increasing feats3 0 2 0 2); [reflexivity.. | lia].
Defined.

Lemma select_nodes_aligned_witness :
  (select_nodes mask2 feats2 centroids2).1.2 !! 0
    = kept_nodes feats2 !! 0 ≫= (feats2 !!.)
  ∧ (select_nodes mask2 feats2 centroids2).2 !! 0
    = kept_nodes feats2 !! 0 ≫= (centroids2 !!.)
  ∧ ((select_nodes mask2 feats2 centroids2).1.1 !! 0 ≫= (.!! 0))
    = kept_nodes feats2 !! 0 ≫= λ i,
        kept_nodes feats2 !! 0 ≫= λ j, mask2 !! i ≫= (.!! j).
Proof.
  apply (select_nodes_aligned mask2 feats2 centroids2 0 0).
  - discriminate.
  - reflexivity.
  - repeat constructor.
  - reflexivity.
Defined.

Lemma select_nodes_shape_witness :
  length (select_nodes mask2 feats2 centroids2).1.1
    = length (kept_nodes feats2)
  ∧ Forall (λ row, length row = length (kept_nodes feats2))
      (select_nodes mask2 feats2 centroids2).1.1
  ∧ length (select_nodes mask2 feats2 centroids2).1.2
    = length (kept_nodes feats2)
  ∧ length (select_nodes mask2 feats2 centroids2).2
    = length (kept_nodes feats2).
Proof.
  apply (select_nodes_shape mask2 feats2 centroids2).
  - discriminate.
  - reflexivity.
  - repeat constructor.
  - reflexivity.
Defined.

Lemma select_nodes_rows_nonzero_witness :
  Forall (λ row, ¬ (row_sum row == 0)%Q)
    (select_nodes mask2 feats2 centroids2).1.2.
Proof.
  apply (select_nodes_rows_nonzero mask2 feats2 centroids2). discriminate.
Defined.


Lemma kept_nodes_nonnegative_witness :
  1 ∈ kept_nodes feats3 ↔
    ∃ row, feats3 !! 1 = Some row ∧ Exists (λ x, ¬ (x == 0)%Q) row.
Proof.
  apply (kept_nodes_nonnegative feats3 1).
  repeat constructor; discriminate.
Defined.

Lemma explain_instance_config_witness :
  (∀ key, key ≠ "explainer" → toy_config' !! key = toy_config !! key)
  ∧ ∃ d d',
      toy_config !! "explainer" = Some (JObject d)
      ∧ toy_config' !! "explainer" = Some (JObject d')
      ∧ dict_get "adj_thresh" d' = dict_get "adj_thresh" d
      ∧ ∀ key, key ≠ "number_of_epochs" → key ≠ "learning_rate" →
          dict_get key d' = dict_get key d.
Proof.
  apply (explain_instance_config toy_render toy_explainer toy_config
           toy_args toy_instance 0 toy_config' toy_explanation
           "slide_7_explanation.json" toy_meta_data).
  vm_compute. reflexivity.
Defined.

Lemma explain_instance_config_stable_witness : toy_config' = toy_config'.
Proof.
  apply (explain_instance_config_stable toy_render toy_explainer toy_config
           toy_args toy_instance 0 toy_instance' 1
           toy_config' toy_explanation "slide_7_explanation.json"
           toy_meta_data
           toy_config' toy_explanation "slide_8_explanation.json"
           toy_meta_data).
  - vm_compute. reflexivity.
  - vm_compute. reflexivity.
Defined.

(** A loader whose second instance has no name: the first file is written,
    then the loop ends with an [IndexError]. *)
Example explain_all_broken :
  (explain_all toy_render toy_explainer toy_config toy_args
     broken_loader []).1.*1 = ["slide_7_explanation.json"]
  ∧ (explain_all toy_render toy_explainer toy_config toy_args
       broken_loader []).2 = Raise IndexError.
Proof. by vm_compute. Qed.

Lemma explain_all_written_witness :
  Some <$> [("slide_7_explanation.json", toy_meta_data)].*1
    = (λ dl, instance_file dl.1)
        <$> take (length [("slide_7_explanation.json", toy_meta_data)])
              broken_loader
  ∧ length [("slide_7_explanation.json", toy_meta_data)]
    < length broken_loader.
Proof.
  apply (explain_all_written toy_render toy_explainer toy_config toy_args
           broken_loader [("slide_7_explanation.json", toy_meta_data)]
           (Raise IndexError)).
  vm_compute. reflexivity.
Defined.

Lemma explain_all_config_witness :
  Forall (λ f, ∃ m, f.2 = JObject m
                 ∧ dict_get "config" m
                   = Ok (JObject (recorded toy_args
                                    [("adj_thresh", JFloat (1 # 2))])))
    [ ("slide_7_explanation.json", toy_meta_data);
      ("slide_8_explanation.json", toy_meta_data) ]
  ∧ ∀ config', Ok toy_config' = Ok config' → toy_loader ≠ [] →
      config' = <["explainer" :=
                    JObject (recorded toy_args
                               [("adj_thresh", JFloat (1 # 2))])]>
                  toy_config.
Proof.
  apply (explain_all_config toy_render toy_explainer toy_config toy_args
           toy_loader
           [ ("slide_7_explanation.json", toy_meta_data);
             ("slide_8_explanation.json", toy_meta_data) ]
           (Ok toy_config') [("adj_thresh", JFloat (1 # 2))]).
  - reflexivity.
  - vm_compute. reflexivity.
Defined.

Lemma to_eval_components_witness :
  to_eval all_digits (String.concat "." ["layers"; "0"; "weight"])
    = "model" +:+ foldr String.append ""
                    (accessor all_digits <$> ["layers"; "0"; "weight"]).
Proof.
  apply (to_eval_components all_digits ["layers"; "0"; "weight"]).
  - discriminate.
  - repeat constructor.
Defined.

Example to_eval_layers :
  to_eval all_digits "layers.0.weight" = "model.layers[0].weight".
Proof. reflexivity. Qed.

Lemma to_eval_no_int_witness :
  to_eval all_digits "encoder.weight" = "model." +:+ "encoder.weight".
Proof.
  apply (to_eval_no_int all_digits "encoder.weight").
  repeat constructor.
Defined.

End MoreRuns.
